(** * Session pages of the rewriting front end: model and properties

    The development follows the React pages that drive a rewriting
    session from the browser:

    - [SessionDetailPage.jsx]: the segment list of one session, the
      stream-update handler fed by server-sent events, the assembled
      output text and the stop action;
    - [WorkspacePage.jsx]: submission of a document, the session list,
      progress polling, deletion and the retry action;
    - [App.jsx] and [WelcomePage.jsx]: the access key that guards the
      routes of both pages.

    JavaScript strings are sequences of UTF-16 code units, [null] and
    [undefined] are [None], React state is threaded explicitly, and the
    asynchronous handlers are finite interaction trees over toasts, the
    confirmation dialog and the HTTP API. *)

From Stdlib Require Import ZArith NArith Ascii String.
From stdpp Require Import base numbers option list sorting gmap.

Local Open Scope Z_scope.

(** ** JavaScript strings *)

(** A JavaScript string is a sequence of UTF-16 code units. *)
Abbreviation jsstring := (list N).

(** ASCII literals of the source, unit by unit. *)
Fixpoint lit (s : string) : jsstring :=
  match s with
  | EmptyString => []
  | String c s' => N_of_ascii c :: lit s'
  end.

(** Strict equality [===] between two strings. *)
Definition str_eqb (a b : jsstring) : bool := bool_decide (a = b).

(** A property that may be [null] or [undefined]. *)
Abbreviation nullable := (option jsstring).

(** Truthiness of a nullable string: [null], [undefined] and the empty
    string are falsy. *)
Definition truthy (v : nullable) : bool :=
  match v with
  | Some (_ :: _) => true
  | _ => false
  end.

(** [a || b]: the left operand when truthy, otherwise the right one. *)
Definition js_or (a b : nullable) : nullable := if truthy a then a else b.

(** [a || 'literal']: the same with a string on the right. *)
Definition or_else (a : nullable) (d : jsstring) : jsstring :=
  match a with
  | Some (c :: s) => c :: s
  | _ => d
  end.

(** String conversion done by [Array.prototype.join]: [null] and
    [undefined] become the empty string. *)
Definition join_item (v : nullable) : jsstring := default [] v.

(** String conversion done by [+]: [undefined] is spelled out. *)
Definition concat_item (v : nullable) : jsstring := default (lit "undefined") v.

(** [Array.prototype.join]. *)
Fixpoint join (sep : jsstring) (items : list nullable) : jsstring :=
  match items with
  | [] => []
  | [v] => join_item v
  | v :: rest => join_item v ++ sep ++ join sep rest
  end.

(** Code units removed by [String.prototype.trim]: the WhiteSpace and
    LineTerminator productions of ECMAScript. *)
Definition is_whitespace (c : N) : bool :=
  ((9 <=? c) && (c <=? 13) || (c =? 32) || (c =? 160) || (c =? 5760)
   || (8192 <=? c) && (c <=? 8202) || (c =? 8232) || (c =? 8233)
   || (c =? 8239) || (c =? 8287) || (c =? 12288) || (c =? 65279))%N.

Fixpoint trimStart (s : jsstring) : jsstring :=
  match s with
  | c :: s' => if is_whitespace c then trimStart s' else s
  | [] => []
  end.

Definition trimEnd (s : jsstring) : jsstring := reverse (trimStart (reverse s)).

Definition trim (s : jsstring) : jsstring := trimEnd (trimStart s).

(** ** Array sort with a numeric comparator *)

(** [Array.prototype.sort] is stable; with a consistent comparator the
    result is the stable ordering, modelled here by insertion from the
    right: [x] goes in front of the first element it does not exceed. *)
Section js_sort.
Context {A : Type} (cmp : A → A → Z).

Fixpoint sort_insert (x : A) (l : list A) : list A :=
  match l with
  | [] => [x]
  | y :: l' => if decide (cmp x y ≤ 0) then x :: l else y :: sort_insert x l'
  end.

Definition js_sort (l : list A) : list A := foldr sort_insert [] l.
End js_sort.

(** ** Segments and the segment list (SessionDetailPage) *)

Record Segment := mkSegment {
  segment_index : Z;
  original_text : nullable;
  polished_text : nullable;
  enhanced_text : nullable;
  seg_status : jsstring
}.

Definition by_segment_index (a b : Segment) : Z :=
  segment_index a - segment_index b.

(** What one segment contributes to the final text:
    [seg.enhanced_text || seg.polished_text || seg.original_text]. *)
Definition final_piece (seg : Segment) : nullable :=
  js_or (js_or (enhanced_text seg) (polished_text seg)) (original_text seg).

(** The separator ['\n\n']. *)
Definition paragraph_sep : jsstring := [10; 10]%N.

(** [getFinalText]: the sort is in place, so the call also leaves the
    [segments] array reordered; the second component is that array. *)
Definition getFinalText (segments : list Segment) : jsstring * list Segment :=
  let sorted := js_sort by_segment_index segments in
  (join paragraph_sep (final_piece <$> sorted), sorted).

Definition getOriginalText (segments : list Segment) : jsstring * list Segment :=
  let sorted := js_sort by_segment_index segments in
  (join paragraph_sep (original_text <$> sorted), sorted).

(** The specification's wording of one segment's contribution: the
    enhanced text if non-empty, otherwise the polished text if non-empty,
    otherwise the original text. *)
Definition contribution (seg : Segment) : jsstring :=
  match enhanced_text seg with
  | Some (c :: s) => c :: s
  | _ => match polished_text seg with
         | Some (c :: s) => c :: s
         | _ => join_item (original_text seg)
         end
  end.

(** Joining already converted strings with a separator. *)
Fixpoint join_strings (sep : jsstring) (items : list jsstring) : jsstring :=
  match items with
  | [] => []
  | [v] => v
  | v :: rest => v ++ sep ++ join_strings sep rest
  end.

Definition index_le (a b : Segment) : Prop := segment_index a ≤ segment_index b.

(** Segments carrying index [k], in list order. *)
Definition with_index (k : Z) (l : list Segment) : list Segment :=
  filter (λ s, segment_index s = k) l.

(** The list holds at each position the segment of that index, the
    layout the stream updater relies on. *)
Definition aligned (segs : list Segment) : Prop :=
  ∀ (i : nat) (seg : Segment), segs !! i = Some seg → segment_index seg = Z.of_nat i.

(** The indices of the list are 0, 1, ..., n-1 in some order. *)
Definition ordinal_indices (segs : list Segment) : Prop :=
  segment_index <$> segs ≡ₚ seqZ 0 (Z.of_nat (length segs)).

(** ** Sessions, effects and asynchronous handlers *)

Record Session := mkSession {
  session_id : jsstring;
  sess_status : jsstring;
  progress : Z;
  error_message : nullable
}.

Definition with_status (v : jsstring) (s : Session) : Session :=
  mkSession (session_id s) v (progress s) (error_message s).

(** Fire-and-forget calls of a handler. *)
Inductive output :=
| ToastError (msg : jsstring)
| ToastSuccess (msg : jsstring)
| ToastInfo (msg : jsstring)
| ConsoleWarnSegmentNotFound (segmentIndex : Z)
| ConsoleError (msg : jsstring)
| Navigate (path : jsstring)
| StopPropagation.

(** Calls of [optimizationAPI] made by the two pages. *)
Inductive request :=
| StartOptimization (document processing_mode : jsstring)
| ListSessions
| RetryFailedSegments (sid : jsstring)
| StopSession (sid : jsstring)
| GetSessionDetail (sid : jsstring).

(** The [data] object of a response; a property that is absent is [None]
    (or the empty list). *)
Record ResponseData := mkResponseData {
  r_session_id : nullable;
  r_message : nullable;
  r_sessions : list Session;
  r_session : option Session;
  r_segments : option (list Segment)
}.

(** An awaited call resolves, or rejects with
    [error.response?.data?.detail]. *)
Inductive response :=
| Resolved (data : ResponseData)
| Rejected (detail : nullable).

(** A handler over page state [S]: it ends, makes a call, sets state,
    asks [window.confirm], awaits a request, or starts another handler
    without awaiting it. *)
Inductive prog (S : Type) : Type :=
| Done
| Emit (o : output) (k : prog S)
| Update (f : S → S) (k : prog S)
| Confirm (msg : jsstring) (k : bool → prog S)
| Await (r : request) (k : response → prog S)
| Fork (child : prog S) (k : prog S).

Arguments Done {S}.
Arguments Emit {S} o k.
Arguments Update {S} f k.
Arguments Confirm {S} msg k.
Arguments Await {S} r k.
Arguments Fork {S} child k.

(** What an observer sees of a run. *)
Inductive event :=
| Out (o : output)
| Asked (msg : jsstring) (answer : bool)
| Sent (r : request) (resp : response).

(** The user and the server. *)
Record Env := mkEnv {
  answer_confirm : jsstring → bool;
  answer_request : request → response
}.

(** One run of a handler; a forked handler is run to its end before the
    rest of its parent. *)
Fixpoint run {S : Type} (env : Env) (p : prog S) (st : S) : S * list event :=
  match p with
  | Done => (st, [])
  | Emit o k => let '(st', tr) := run env k st in (st', Out o :: tr)
  | Update f k => run env k (f st)
  | Confirm msg k =>
      let b := answer_confirm env msg in
      let '(st', tr) := run env (k b) st in (st', Asked msg b :: tr)
  | Await r k =>
      let resp := answer_request env r in
      let '(st', tr) := run env (k resp) st in (st', Sent r resp :: tr)
  | Fork child k =>
      let '(st1, tr1) := run env child st in
      let '(st2, tr2) := run env k st1 in (st2, tr1 ++ tr2)
  end.

(** A user who confirms every dialog and a server that rejects every
    request. *)
Definition env_rejecting : Env := mkEnv (λ _, true) (λ _, Rejected None).

(** The requests of a trace, in order. *)
Definition requests (tr : list event) : list request :=
  omap (λ e, match e with Sent r _ => Some r | _ => None end) tr.

(** ** SessionDetailPage: stream updates *)

Record StreamData := mkStreamData {
  data_type : jsstring;
  data_segment_index : Z;
  data_stage : jsstring;
  data_content : jsstring;
  data_message : jsstring
}.

Record DetailState := mkDetailState {
  session : option Session;
  segments : list Segment
}.

(** [array[i]] for a numeric [i]: [undefined] outside the array. *)
Definition array_get {A : Type} (l : list A) (i : Z) : option A :=
  if decide (0 ≤ i) then l !! Z.to_nat i else None.

Definition set_polished_text (v : nullable) (seg : Segment) : Segment :=
  mkSegment (segment_index seg) (original_text seg) v (enhanced_text seg) (seg_status seg).

Definition set_enhanced_text (v : nullable) (seg : Segment) : Segment :=
  mkSegment (segment_index seg) (original_text seg) (polished_text seg) v (seg_status seg).

Definition set_seg_status (v : jsstring) (seg : Segment) : Segment :=
  mkSegment (segment_index seg) (original_text seg) (polished_text seg) (enhanced_text seg) v.

(** The copy [{ ...newSegments[segmentIndex] }] of the found segment
    after the content and status assignments of the updater. *)
Definition apply_delta (data : StreamData) (found : Segment) : Segment :=
  let segment := found in
  let segment :=
    if str_eqb (data_stage data) (lit "polish")
       || str_eqb (data_stage data) (lit "emotion_polish")
    then set_polished_text
           (Some (or_else (polished_text segment) [] ++ data_content data)) segment
    else if str_eqb (data_stage data) (lit "enhance")
    then set_enhanced_text
           (Some (or_else (enhanced_text segment) [] ++ data_content data)) segment
    else segment in
  if negb (str_eqb (seg_status segment) (lit "processing"))
  then set_seg_status (lit "processing") segment
  else segment.

(** The updater passed to [setSegments] by [handleStreamUpdate]. *)
Definition setSegments_updater (data : StreamData) (prevSegments : list Segment)
  : list Segment * list output :=
  let newSegments := prevSegments in
  let segmentIndex := data_segment_index data in
  match array_get newSegments segmentIndex with
  | None => (prevSegments, [ConsoleWarnSegmentNotFound segmentIndex])
  | Some found =>
      (<[Z.to_nat segmentIndex := apply_delta data found]> newSegments, [])
  end.

(** A [segment_index] as [JSON.parse] may deliver it: an integer-valued
    number, or a string; of the strings the property key ["length"] is
    modelled. *)
Inductive IndexValue :=
| IndexNumber (i : Z)
| IndexLength.

(** What a call of the updater ends in. *)
Inductive UpdaterOutcome :=
| ReturnsList (segs : list Segment)
| ThrowsRangeError.

(** The event [data] with [i] as its segment index. *)
Definition with_segment_index (i : Z) (data : StreamData) : StreamData :=
  mkStreamData (data_type data) i (data_stage data) (data_content data)
    (data_message data).

(** The updater for either kind of index. With the key ["length"],
    [newSegments[segmentIndex]] is the number of elements, falsy only
    for the empty array; the spread of a number has no properties, and
    assigning the resulting object to [length] throws a [RangeError]. *)
Definition setSegments_updater_at (segmentIndex : IndexValue) (data : StreamData)
    (prevSegments : list Segment) : UpdaterOutcome :=
  match segmentIndex with
  | IndexNumber i =>
      ReturnsList (setSegments_updater (with_segment_index i data) prevSegments).1
  | IndexLength =>
      match prevSegments with
      | [] => ReturnsList prevSegments
      | _ :: _ => ThrowsRangeError
      end
  end.

(** The index names a loaded segment. *)
Definition names_segment (segmentIndex : IndexValue) (segs : list Segment) : Prop :=
  match segmentIndex with
  | IndexNumber i => is_Some (array_get segs i)
  | IndexLength => False
  end.

(** The updater passed to [setSession] by [handleStreamUpdate]. *)
Definition setSession_updater (prev : option Session) : option Session :=
  match prev with
  | Some s =>
      if negb (str_eqb (sess_status s) (lit "processing"))
      then Some (with_status (lit "processing") s)
      else prev
  | None => prev
  end.

Definition handleStreamUpdate (data : StreamData) (st : DetailState)
  : DetailState * list output :=
  let '(segs, outs) := setSegments_updater data (segments st) in
  (mkDetailState (setSession_updater (session st)) segs, outs).

(** The toast library is imported, not part of the sources. Its [error]
    and [success] methods are called on every page; [info] is called in
    one place only, so whether the library has it is a parameter. Calling
    a method that is missing throws a [TypeError]. *)
Record ToastLibrary := mkToastLibrary {
  has_info : bool
}.

(** The library the pages import, react-hot-toast: its default export
    has [success], [error], [loading], [custom], [promise], [dismiss]
    and [remove], and no [info]. *)
Definition react_hot_toast : ToastLibrary := mkToastLibrary false.

(** [eventSource.onmessage]; [parsed] is [None] when [JSON.parse] throws.
    Whatever throws inside the [try] block ends in the [catch] branch. *)
Definition onmessage (toast : ToastLibrary) (parsed : option StreamData)
    (st : DetailState) : DetailState * list output :=
  let caught := (st, [ConsoleError (lit "Error parsing SSE data:")]) in
  match parsed with
  | None => caught
  | Some data =>
      if str_eqb (data_type data) (lit "content") then handleStreamUpdate data st
      else if str_eqb (data_type data) (lit "history_compressed")
      then if has_info toast then (st, [ToastInfo (data_message data)]) else caught
      else (st, [])
  end.

(** A sequence of received messages, in delivery order. *)
Definition deliver (toast : ToastLibrary) (msgs : list StreamData)
    (st : DetailState) : DetailState :=
  foldl (λ acc data, (onmessage toast (Some data) acc).1) st msgs.

(** The segment list after a sequence of stream updates. *)
Definition stream_updates (evs : list StreamData) (segs : list Segment) : list Segment :=
  foldl (λ acc data, (setSegments_updater data acc).1) segs evs.

(** Stages whose deltas go to [polished_text], and to [enhanced_text]. *)
Definition to_polished (data : StreamData) : bool :=
  str_eqb (data_stage data) (lit "polish")
  || str_eqb (data_stage data) (lit "emotion_polish").

Definition to_enhanced (data : StreamData) : bool :=
  str_eqb (data_stage data) (lit "enhance").

(** The payloads, concatenated in delivery order, of the events that
    name position [i] and go to the chosen field. *)
Definition deltas (target : StreamData → bool) (i : nat) (evs : list StreamData)
  : jsstring :=
  concat (data_content <$>
            filter (λ d, data_segment_index d = Z.of_nat i ∧ target d = true) evs).

Definition is_processing (seg : Segment) : Prop := seg_status seg = lit "processing".

Definition count_processing (segs : list Segment) : nat :=
  length (filter is_processing segs).

(** ** SessionDetailPage: header and stop action *)

Definition msg_confirm_stop : jsstring :=
  [30830; 23450; 35201; 20572; 27490; 24403; 21069; 30340; 20248; 21270; 20219;
   21153; 21527; 65311; 24050; 23436; 25104; 30340; 27573; 33853; 23558; 20445;
   30041; 12290]%N.
Definition msg_stopped : jsstring := [20219; 21153; 24050; 20572; 27490]%N.
Definition msg_stop_failed : jsstring :=
  [20572; 27490; 20219; 21153; 22833; 36133; 58; 32]%N.
Definition msg_unknown_error : jsstring := [26410; 30693; 38169; 35823]%N.
Definition msg_load_detail_failed : jsstring :=
  [21152; 36733; 20250; 35805; 35814; 24773; 22833; 36133]%N.

Definition setSession (v : option Session) (st : DetailState) : DetailState :=
  mkDetailState v (segments st).

Definition setSegments (v : list Segment) (st : DetailState) : DetailState :=
  mkDetailState (session st) v.

(** [loadSessionDetail]: reading [segments] of a [null] body throws into
    the [catch] branch, after [setSession] has run. *)
Definition loadSessionDetail (sessionId : jsstring) : prog DetailState :=
  let failed :=
    Emit (ToastError msg_load_detail_failed) (Emit (Navigate (lit "/workspace")) Done) in
  Await (GetSessionDetail sessionId) (λ resp,
    match resp with
    | Resolved data =>
        Update (setSession (r_session data))
          (match r_session data with
           | Some _ => Update (setSegments (default [] (r_segments data))) Done
           | None => failed
           end)
    | Rejected _ => failed
    end).

Definition handleStop (sessionId : jsstring) : prog DetailState :=
  Confirm msg_confirm_stop (λ ok,
    if negb ok then Done
    else Await (StopSession sessionId) (λ resp,
      match resp with
      | Resolved _ =>
          Emit (ToastSuccess msg_stopped) (Fork (loadSessionDetail sessionId) Done)
      | Rejected detail =>
          Emit (ToastError (msg_stop_failed ++ or_else detail msg_unknown_error)) Done
      end)).

(** The right-hand side of the navigation bar. *)
Inductive HeaderItem :=
| CompletedBadge
| ExportButton
| FailedBadge
| StoppedBadge
| StopButton.

Definition headerItems (s : Session) : list HeaderItem :=
  (if str_eqb (sess_status s) (lit "completed") then [CompletedBadge; ExportButton] else [])
  ++ (if str_eqb (sess_status s) (lit "failed") then [FailedBadge] else [])
  ++ (if str_eqb (sess_status s) (lit "stopped") then [StoppedBadge] else [])
  ++ (if str_eqb (sess_status s) (lit "processing")
         || str_eqb (sess_status s) (lit "queued")
      then [StopButton] else []).

(** The click handler of a header item, where it has one in this model. *)
Definition onClick (sessionId : jsstring) (item : HeaderItem) : prog DetailState :=
  match item with
  | StopButton => handleStop sessionId
  | _ => Done
  end.

(** ** WorkspacePage: submission and retry *)

Record WorkspaceState := mkWorkspaceState {
  text : jsstring;
  processingMode : jsstring;
  sessions : list Session;
  activeSession : nullable;
  isSubmitting : bool;
  isLoadingSessions : bool
}.

Definition setText (v : jsstring) (st : WorkspaceState) : WorkspaceState :=
  mkWorkspaceState v (processingMode st) (sessions st) (activeSession st)
    (isSubmitting st) (isLoadingSessions st).

Definition setSessions (v : list Session) (st : WorkspaceState) : WorkspaceState :=
  mkWorkspaceState (text st) (processingMode st) v (activeSession st)
    (isSubmitting st) (isLoadingSessions st).

Definition setActiveSession (v : nullable) (st : WorkspaceState) : WorkspaceState :=
  mkWorkspaceState (text st) (processingMode st) (sessions st) v
    (isSubmitting st) (isLoadingSessions st).

Definition setIsSubmitting (v : bool) (st : WorkspaceState) : WorkspaceState :=
  mkWorkspaceState (text st) (processingMode st) (sessions st) (activeSession st)
    v (isLoadingSessions st).

Definition setIsLoadingSessions (v : bool) (st : WorkspaceState) : WorkspaceState :=
  mkWorkspaceState (text st) (processingMode st) (sessions st) (activeSession st)
    (isSubmitting st) v.

Definition msg_enter_text : jsstring :=
  [35831; 36755; 20837; 35201; 20248; 21270; 30340; 25991; 26412]%N.
Definition msg_started : jsstring :=
  [20248; 21270; 20219; 21153; 24050; 21551; 21160]%N.
Definition msg_start_failed : jsstring :=
  [21551; 21160; 20248; 21270; 22833; 36133; 58; 32]%N.
Definition msg_confirm_retry : jsstring :=
  [26816; 27979; 21040; 20250; 35805; 25191; 34892; 22833; 36133; 12290; 26159;
   21542; 32487; 32493; 22788; 29702; 26410; 23436; 25104; 30340; 27573; 33853;
   63]%N.
Definition msg_retry_resumed : jsstring :=
  [24050; 37325; 26032; 32487; 32493; 22788; 29702; 26410; 23436; 25104; 27573;
   33853]%N.
Definition msg_retry_failed : jsstring :=
  [37325; 35797; 22833; 36133; 65292; 35831; 31245; 21518; 20877; 35797]%N.
Definition msg_retry_error : jsstring := [37325; 35797; 22833; 36133; 58]%N.
Definition msg_load_sessions_failed : jsstring :=
  [21152; 36733; 20250; 35805; 22833; 36133; 58]%N.

Definition is_in_flight (s : Session) : bool :=
  str_eqb (sess_status s) (lit "processing") || str_eqb (sess_status s) (lit "queued").

Definition loadSessions : prog WorkspaceState :=
  let finally := Update (setIsLoadingSessions false) Done in
  Update (setIsLoadingSessions true)
    (Await ListSessions (λ resp,
       match resp with
       | Resolved data =>
           Update (setSessions (r_sessions data))
             (match List.find is_in_flight (r_sessions data) with
              | Some processing =>
                  Update (setActiveSession (Some (session_id processing))) finally
              | None => finally
              end)
       | Rejected _ => Emit (ConsoleError msg_load_sessions_failed) finally
       end)).

(** [handleStartOptimization], closed over the state [c] of the render
    that created it. *)
Definition handleStartOptimization (c : WorkspaceState) : prog WorkspaceState :=
  let finally := Update (setIsSubmitting false) Done in
  if negb (truthy (Some (trim (text c))))
  then Emit (ToastError msg_enter_text) Done
  else if isSubmitting c then Done
  else
    Update (setIsSubmitting true)
      (Await (StartOptimization (text c) (processingMode c)) (λ resp,
         match resp with
         | Resolved data =>
             Update (setActiveSession (r_session_id data))
               (Emit (ToastSuccess msg_started)
                  (Update (setText []) (Fork loadSessions finally)))
         | Rejected detail =>
             Emit (ToastError (msg_start_failed ++ concat_item detail)) finally
         end)).

Definition handleRetrySegment (s : Session) : prog WorkspaceState :=
  if negb (str_eqb (sess_status s) (lit "failed")) then Done
  else
    Confirm msg_confirm_retry (λ confirmRetry,
      if negb confirmRetry then Done
      else Await (RetryFailedSegments (session_id s)) (λ resp,
        match resp with
        | Resolved data =>
            Update (setActiveSession (Some (session_id s)))
              (Emit (ToastSuccess (or_else (r_message data) msg_retry_resumed))
                 loadSessions)
        | Rejected detail =>
            Emit (ConsoleError msg_retry_error)
              (Emit (ToastError (or_else detail msg_retry_failed)) Done)
        end)).

(** [SessionItem]: the retry click handler and the condition under which
    its button is rendered. *)
Definition handleRetry (s : Session) (onRetry : Session → prog WorkspaceState)
  : prog WorkspaceState :=
  Emit StopPropagation
    (if str_eqb (sess_status s) (lit "failed") then onRetry s else Done).

Definition retryButtonRendered (s : Session) : bool :=
  str_eqb (sess_status s) (lit "failed").

(** ** Admission controller (server side) *)

Module Admission.
Section controller.
Context {Id : Type} `{EqDecision Id}.

(** Modelled from the spec: the admission controller's state, which is
    server code outside the front-end sources. The sessions holding a
    slot are the ones in status processing, the FIFO wait queue holds
    the queued ones, and the ceiling is the configured maximum. *)
Record Controller := mkController {
  max_count : nat;
  active : list Id;
  waiting : list Id
}.

(** Modelled from the spec: at start no session is active or queued. *)
Definition init (ceiling : nat) : Controller := mkController ceiling [] [].

(** Modelled from the spec: the number of currently processing sessions
    is the number of occupied slots. *)
Definition processing_count (c : Controller) : nat := length (active c).

(** The invariant: no more processing sessions than the ceiling. *)
Definition within_ceiling (c : Controller) : Prop :=
  (processing_count c ≤ max_count c)%nat.

Fixpoint remove_first (s : Id) (l : list Id) : list Id :=
  match l with
  | [] => []
  | x :: l' => if decide (x = s) then l' else x :: remove_first s l'
  end.

(** Modelled from the spec: promotion of queue heads, in arrival order,
    while occupied slots < configured maximum. *)
Fixpoint promote (ceiling : nat) (act queue : list Id) : list Id * list Id :=
  match queue with
  | [] => (act, [])
  | s :: rest =>
      if decide (length act < ceiling)%nat
      then promote ceiling (act ++ [s]) rest
      else (act, queue)
  end.

Definition scan (c : Controller) : Controller :=
  let '(act, queue) := promote (max_count c) (active c) (waiting c) in
  mkController (max_count c) act queue.

(** Modelled from the spec: [submit] grants a slot immediately if
    occupied slots < configured maximum, and otherwise appends the
    session to the FIFO wait queue; the ticket carries the queue
    position, 0 for a granted slot. *)
Definition submit (s : Id) (c : Controller) : Controller * nat :=
  if decide (length (active c) < max_count c)%nat
  then (mkController (max_count c) (active c ++ [s]) (waiting c), 0%nat)
  else (mkController (max_count c) (active c) (waiting c ++ [s]),
        S (length (waiting c))).

(** Modelled from the spec: [release] frees the session's slot and
    promotes from the head of the queue. *)
Definition release (s : Id) (c : Controller) : Controller :=
  scan (mkController (max_count c) (remove_first s (active c)) (waiting c)).

(** Modelled from the spec: a cancelled queued session is removed from
    the queue and its ticket discarded. *)
Definition cancel (s : Id) (c : Controller) : Controller :=
  mkController (max_count c) (active c) (remove_first s (waiting c)).

(** Modelled from the spec: changing the ceiling at run time triggers a
    scan, which allows more promotions when the ceiling went up, and
    never pre-empts an already-active session, also when the new
    ceiling is below the number of active sessions. *)
Definition configure (ceiling : nat) (c : Controller) : Controller :=
  scan (mkController ceiling (active c) (waiting c)).

(** Modelled from the spec: the controller's counters are changed under
    one mutual-exclusion discipline, so its operations apply one at a
    time, in some order. *)
Inductive op :=
| Submit (s : Id)
| Release (s : Id)
| Cancel (s : Id)
| Configure (ceiling : nat).

Definition step (c : Controller) (o : op) : Controller :=
  match o with
  | Submit s => (submit s c).1
  | Release s => release s c
  | Cancel s => cancel s c
  | Configure ceiling => configure ceiling c
  end.

Definition run_ops (ops : list op) (c : Controller) : Controller :=
  foldl step c ops.

(** The largest ceiling in force at any time of a run that started
    with [ceiling]. *)
Definition peak (ceiling : nat) (ops : list op) : nat :=
  foldl (λ acc o, match o with Configure n => Nat.max acc n | _ => acc end)
    ceiling ops.
End controller.
End Admission.

(** ** What the result pane shows *)

(** The first non-empty string of [a] and [b], else [c]. *)
Definition first_nonempty (a b c : jsstring) : jsstring :=
  match a with
  | _ :: _ => a
  | [] => match b with
          | _ :: _ => b
          | [] => c
          end
  end.

(** Two segments with the same index and the same original text. *)
Definition same_source (a b : Segment) : Prop :=
  segment_index a = segment_index b ∧ original_text a = original_text b.

(** ** WorkspacePage: what is rendered from the state *)

(** The [disabled] attribute of the start button:
    [!text.trim() || activeSession || isSubmitting]. *)
Definition startDisabled (st : WorkspaceState) : bool :=
  negb (truthy (Some (trim (text st)))) || truthy (activeSession st) || isSubmitting st.

(** [currentActiveSessionData]:
    [sessions.find(s => s.session_id === activeSession)]. *)
Definition currentActiveSessionData (st : WorkspaceState) : option Session :=
  List.find (λ s, bool_decide (Some (session_id s) = activeSession st)) (sessions st).

(** The session of the progress card, rendered for
    [activeSession && currentActiveSessionData]. *)
Definition progressCard (st : WorkspaceState) : option Session :=
  if truthy (activeSession st) then currentActiveSessionData st else None.

(** ** Further calls: progress polling, deletion, export *)

(** The calls of [optimizationAPI]: the five above and three more. *)
Inductive call :=
| Api (r : request)
| GetSessionProgress (sid : jsstring)
| DeleteSession (sid : jsstring)
| ExportSession (sid : jsstring) (export_format : jsstring).

(** A response body with the further properties these calls read:
    [status], [progress] and [error_message] of a progress snapshot,
    [content] and [filename] of an export. An absent property is [None];
    for [error_message] the inner [None] is a [null] that is present. *)
Record ReplyData := mkReplyData {
  body : ResponseData;
  p_status : nullable;
  p_progress : option Z;
  p_error_message : option nullable;
  x_content : nullable;
  x_filename : nullable
}.

Inductive reply :=
| Replied (data : ReplyData)
| Refused (detail : nullable).

Definition to_response (r : reply) : response :=
  match r with
  | Replied data => Resolved (body data)
  | Refused detail => Rejected detail
  end.

(** Fire-and-forget calls, with the file download of the export. *)
Inductive effect :=
| Plain (o : output)
| Download (filename content : nullable).

(** Handlers over the larger vocabulary, built like [prog]. *)
Inductive task (S : Type) : Type :=
| TDone
| TEmit (e : effect) (k : task S)
| TUpdate (f : S → S) (k : task S)
| TConfirm (msg : jsstring) (k : bool → task S)
| TAwait (c : call) (k : reply → task S)
| TFork (child : task S) (k : task S).

Arguments TDone {S}.
Arguments TEmit {S} e k.
Arguments TUpdate {S} f k.
Arguments TConfirm {S} msg k.
Arguments TAwait {S} c k.
Arguments TFork {S} child k.

(** A handler of the smaller vocabulary called from a larger one. *)
Fixpoint lift {S : Type} (p : prog S) : task S :=
  match p with
  | Done => TDone
  | Emit o k => TEmit (Plain o) (lift k)
  | Update f k => TUpdate f (lift k)
  | Confirm msg k => TConfirm msg (λ b, lift (k b))
  | Await r k => TAwait (Api r) (λ a, lift (k (to_response a)))
  | Fork child k => TFork (lift child) (lift k)
  end.

Inductive occurrence :=
| Did (e : effect)
| Answered (msg : jsstring) (answer : bool)
| Called (c : call) (r : reply).

Record World := mkWorld {
  world_confirm : jsstring → bool;
  world_call : call → reply
}.

(** One run of a task, scheduled like [run]. *)
Fixpoint perform {S : Type} (w : World) (t : task S) (st : S) : S * list occurrence :=
  match t with
  | TDone => (st, [])
  | TEmit e k => let '(st', tr) := perform w k st in (st', Did e :: tr)
  | TUpdate f k => perform w k (f st)
  | TConfirm msg k =>
      let b := world_confirm w msg in
      let '(st', tr) := perform w (k b) st in (st', Answered msg b :: tr)
  | TAwait c k =>
      let r := world_call w c in
      let '(st', tr) := perform w (k r) st in (st', Called c r :: tr)
  | TFork child k =>
      let '(st1, tr1) := perform w child st in
      let '(st2, tr2) := perform w k st1 in (st2, tr1 ++ tr2)
  end.

Definition calls (tr : list occurrence) : list call :=
  omap (λ e, match e with Called c _ => Some c | _ => None end) tr.

(** The world as the handlers of the smaller vocabulary see it. *)
Definition env_of (w : World) : Env :=
  mkEnv (world_confirm w) (λ r, to_response (world_call w (Api r))).

(** A user who confirms and a server that refuses every call. *)
Definition world_refusing : World := mkWorld (λ _, true) (λ _, Refused None).

Definition msg_progress_completed : jsstring :=
  [20248; 21270; 23436; 25104; 33]%N.
Definition msg_progress_failed : jsstring :=
  [20248; 21270; 22833; 36133; 58; 32]%N.
Definition msg_progress_error : jsstring :=
  [26356; 26032; 36827; 24230; 22833; 36133; 58]%N.
Definition msg_confirm_delete : jsstring :=
  [30830; 35748; 21024; 38500; 35813; 20250; 35805; 21450; 20854; 32467; 26524;
   21527; 63]%N.
Definition msg_deleted : jsstring := [20250; 35805; 24050; 21024; 38500]%N.
Definition msg_delete_error : jsstring :=
  [21024; 38500; 20250; 35805; 22833; 36133; 58]%N.
Definition msg_delete_failed : jsstring :=
  [21024; 38500; 20250; 35805; 22833; 36133]%N.
(** String conversion in a template literal: [undefined] and [null]
    are spelled out. *)
Definition template_item (v : option nullable) : jsstring :=
  match v with
  | None => lit "undefined"
  | Some None => lit "null"
  | Some (Some s) => s
  end.

(** [{ ...s, ...progress }]: the properties the snapshot carries replace
    those of the session. *)
Definition merge_progress (s : Session) (snapshot : ReplyData) : Session :=
  mkSession
    (default (session_id s) (r_session_id (body snapshot)))
    (default (sess_status s) (p_status snapshot))
    (default (progress s) (p_progress snapshot))
    (default (error_message s) (p_error_message snapshot)).

(** The updater passed to [setSessions] by [updateSessionProgress]. *)
Definition setSessions_updater (sessionId : jsstring) (snapshot : ReplyData)
    (prev : list Session) : list Session :=
  let target := List.find (λ s, str_eqb (session_id s) sessionId) prev in
  let mapped :=
    (λ s, if str_eqb (session_id s) sessionId then merge_progress s snapshot else s)
      <$> prev in
  match target with
  | Some t =>
      if bool_decide (Some (progress t) = p_progress snapshot)
         && bool_decide (Some (sess_status t) = p_status snapshot)
      then prev else mapped
  | None => mapped
  end.

Definition updateSessionProgress (sessionId : jsstring) : task WorkspaceState :=
  TAwait (GetSessionProgress sessionId) (λ response,
    match response with
    | Replied snapshot =>
        TUpdate (λ st, setSessions
                         (setSessions_updater sessionId snapshot (sessions st)) st)
          (if bool_decide (p_status snapshot = Some (lit "completed"))
              || bool_decide (p_status snapshot = Some (lit "failed"))
           then
             TUpdate (setActiveSession None)
               (TFork (lift loadSessions)
                  (if bool_decide (p_status snapshot = Some (lit "completed"))
                   then TEmit (Plain (ToastSuccess msg_progress_completed)) TDone
                   else TEmit (Plain (ToastError
                                        (msg_progress_failed
                                         ++ template_item (p_error_message snapshot))))
                          TDone))
           else TDone)
    | Refused _ => TEmit (Plain (ConsoleError msg_progress_error)) TDone
    end).

(** [handleDeleteSession], closed over the state [c] of the render that
    created it. *)
Definition handleDeleteSession (c : WorkspaceState) (s : Session)
  : task WorkspaceState :=
  TConfirm msg_confirm_delete (λ confirmDelete,
    if negb confirmDelete then TDone
    else TAwait (DeleteSession (session_id s)) (λ response,
      match response with
      | Replied _ =>
          let rest := TEmit (Plain (ToastSuccess msg_deleted)) (lift loadSessions) in
          if bool_decide (activeSession c = Some (session_id s))
          then TUpdate (setActiveSession None) rest
          else rest
      | Refused detail =>
          TEmit (Plain (ConsoleError msg_delete_error))
            (TEmit (Plain (ToastError (or_else detail msg_delete_failed))) TDone)
      end)).

(** ** The access key in [localStorage] (App, WelcomePage, WorkspacePage) *)

(** [localStorage]: string keys to string values. *)
Abbreviation Storage := (gmap (list N) (list N)).

(** What a route element renders. *)
Inductive Routed :=
| RedirectTo (path : jsstring)
| Children.

(** [ProtectedRoute]: [getItem] gives [null] for a missing key. *)
Definition ProtectedRoute (localStorage : Storage) : Routed :=
  let cardKey := localStorage !! lit "cardKey" in
  if negb (truthy cardKey) then RedirectTo (lit "/") else Children.

(** [handleAccept] of the welcome page. *)
Definition handleAccept (cardKey : jsstring) (localStorage : Storage)
  : Storage * output :=
  (<[lit "cardKey" := cardKey]> localStorage, Navigate (lit "/workspace")).

(** [handleLogout] of the workspace page. *)
Definition handleLogout (localStorage : Storage) : Storage * output :=
  (delete (lit "cardKey") localStorage, Navigate (lit "/")).

(** * Properties *)

(** ** Strings *)

Lemma str_eqb_eq (a b : jsstring) : str_eqb a b = true ↔ a = b.
Proof. unfold str_eqb. apply bool_decide_eq_true. Qed.

Lemma str_eqb_neq (a b : jsstring) : str_eqb a b = false ↔ a ≠ b.
Proof. unfold str_eqb. apply bool_decide_eq_false. Qed.

Lemma or_else_empty (v : nullable) : or_else v [] = default [] v.
Proof. by destruct v as [[|c s]|]. Qed.

Lemma trimStart_blank (s : jsstring) :
  forallb is_whitespace s = true → trimStart s = [].
Proof.
  induction s as [|c s IH]; simpl; [done|].
  intros [Hc Hs]%andb_prop. rewrite Hc. auto.
Qed.

Lemma trim_blank (s : jsstring) : forallb is_whitespace s = true → trim s = [].
Proof. intros Hs. unfold trim, trimEnd. by rewrite (trimStart_blank s Hs). Qed.

Lemma trimStart_nil_inv (s : jsstring) :
  trimStart s = [] → forallb is_whitespace s = true.
Proof.
  induction s as [|c s IH]; simpl; [done|].
  destruct (is_whitespace c); [auto | done].
Qed.

Lemma trimStart_suffix (s : jsstring) : ∃ p, s = p ++ trimStart s ∧ forallb is_whitespace p = true.
Proof.
  induction s as [|c s (p & Hp & Hws)]; simpl.
  - by exists [].
  - destruct (is_whitespace c) eqn:Hc.
    + exists (c :: p). simpl. rewrite Hc, Hws. split; [by f_equal | done].
    + by exists [].
Qed.

(** [trim] returns the empty string exactly on strings made of
    whitespace only. *)
Lemma trim_nil_iff (s : jsstring) : trim s = [] ↔ forallb is_whitespace s = true.
Proof.
  split; [|apply trim_blank].
  unfold trim, trimEnd. intros Ht.
  assert (trimStart (reverse (trimStart s)) = []) as Hr.
  { apply (f_equal reverse) in Ht. by rewrite reverse_involutive in Ht. }
  apply trimStart_nil_inv in Hr.
  destruct (trimStart_suffix s) as (p & Hp & Hws).
  rewrite Hp, forallb_app, Hws. simpl.
  apply forallb_forall. intros x Hx.
  apply (proj1 (forallb_forall _ _) Hr).
  apply list_elem_of_In. rewrite reverse_Permutation. by apply list_elem_of_In.
Qed.

(** ** Sorting by segment index *)

Section sorting.
Context {A : Type} (cmp : A → A → Z).

Lemma sort_insert_perm (x : A) (l : list A) : sort_insert cmp x l ≡ₚ x :: l.
Proof.
  induction l as [|y l IH]; simpl; [done|].
  case_decide; [done|]. rewrite IH. apply Permutation_swap.
Qed.

Lemma js_sort_perm (l : list A) : js_sort cmp l ≡ₚ l.
Proof.
  induction l as [|x l IH]; simpl; [done|].
  rewrite sort_insert_perm. by f_equiv.
Qed.

Lemma js_sort_length (l : list A) : length (js_sort cmp l) = length l.
Proof. by rewrite js_sort_perm. Qed.
End sorting.

Lemma index_le_insert (x : Segment) (l : list Segment) :
  StronglySorted index_le l → StronglySorted index_le (sort_insert by_segment_index x l).
Proof.
  induction 1 as [|y l Hl IH Hy]; simpl.
  - repeat constructor.
  - unfold by_segment_index at 1. case_decide as Hxy.
    + constructor; [by constructor|].
      constructor; [unfold index_le; lia|].
      eapply Forall_impl; [exact Hy|]. unfold index_le. intros z Hz. lia.
    + constructor; [done|].
      rewrite sort_insert_perm. constructor; [unfold index_le; lia | done].
Qed.

Lemma js_sort_sorted (l : list Segment) :
  StronglySorted index_le (js_sort by_segment_index l).
Proof.
  induction l as [|x l IH]; simpl; [constructor|]. by apply index_le_insert.
Qed.

Lemma with_index_cons (k : Z) (x : Segment) (l : list Segment) :
  with_index k (x :: l)
  = if decide (segment_index x = k) then x :: with_index k l else with_index k l.
Proof. unfold with_index. by rewrite filter_cons. Qed.

(** Insertion keeps the segments of equal index in their order. *)
Lemma with_index_insert (k : Z) (x : Segment) (l : list Segment) :
  with_index k (sort_insert by_segment_index x l) = with_index k (x :: l).
Proof.
  induction l as [|y l IH]; simpl; [done|].
  unfold by_segment_index at 1. case_decide as Hxy; [done|].
  rewrite (with_index_cons k y), IH, !with_index_cons.
  repeat case_decide; try done; lia.
Qed.

Lemma js_sort_stable (k : Z) (l : list Segment) :
  with_index k (js_sort by_segment_index l) = with_index k l.
Proof.
  induction l as [|x l IH]; simpl; [done|].
  by rewrite with_index_insert, !with_index_cons, IH.
Qed.

Lemma with_index_elem (k : Z) (x : Segment) (l : list Segment) :
  x ∈ with_index k l ↔ x ∈ l ∧ segment_index x = k.
Proof. unfold with_index. rewrite list_elem_of_filter. tauto. Qed.

(** Two index-sorted lists with the same segments, in the same order,
    under every index are the same list. *)
Lemma stable_sorted_unique (l1 l2 : list Segment) :
  StronglySorted index_le l1 → StronglySorted index_le l2 →
  (∀ k, with_index k l1 = with_index k l2) → l1 = l2.
Proof.
  intros H1. revert l2.
  induction H1 as [|x l1 Hl1 IH Hx]; intros l2 H2 Heq.
  - destruct l2 as [|y l2]; [done|].
    specialize (Heq (segment_index y)). rewrite with_index_cons in Heq.
    by rewrite decide_True in Heq.
  - destruct H2 as [|y l2 Hl2 Hy].
    { specialize (Heq (segment_index x)). rewrite with_index_cons in Heq.
      by rewrite decide_True in Heq. }
    assert (segment_index x ≤ segment_index y) as Hxy.
    { assert (y ∈ with_index (segment_index y) (x :: l1)) as Hin.
      { rewrite Heq, with_index_cons, decide_True by done. left. }
      apply with_index_elem in Hin as [Hin _].
      apply elem_of_cons in Hin as [->|Hin]; [lia|].
      rewrite Forall_forall in Hx. by apply Hx. }
    assert (segment_index y ≤ segment_index x) as Hyx.
    { assert (x ∈ with_index (segment_index x) (y :: l2)) as Hin.
      { rewrite <- Heq, with_index_cons, decide_True by done. left. }
      apply with_index_elem in Hin as [Hin _].
      apply elem_of_cons in Hin as [->|Hin]; [lia|].
      rewrite Forall_forall in Hy. by apply Hy. }
    assert (x = y) as ->.
    { specialize (Heq (segment_index x)). rewrite !with_index_cons in Heq.
      rewrite !decide_True in Heq by lia. by inversion Heq. }
    f_equal. apply IH; [done|]. intros k.
    specialize (Heq k). rewrite !with_index_cons in Heq.
    case_decide; [by inversion Heq | done].
Qed.

(** With pairwise different indices the sorted permutation is unique. *)
Lemma sorted_perm_unique (l1 l2 : list Segment) :
  NoDup (segment_index <$> l1) → l1 ≡ₚ l2 →
  StronglySorted index_le l1 → StronglySorted index_le l2 → l1 = l2.
Proof.
  intros Hnd Hp H1 H2.
  apply (StronglySorted_unique_strong index_le); [|done..].
  intros a b Ha Hb Hab Hba. unfold index_le in *.
  rewrite <- Hp in Hb.
  apply list_elem_of_lookup in Ha as [i Hi], Hb as [j Hj].
  assert (i = j) as ->; [|congruence].
  apply (NoDup_lookup _ i j (segment_index a) Hnd).
  - by rewrite list_lookup_fmap, Hi.
  - rewrite list_lookup_fmap, Hj. simpl. f_equal. lia.
Qed.

(** ** The assembled text *)

Lemma final_piece_contribution (seg : Segment) :
  join_item (final_piece seg) = contribution seg.
Proof.
  unfold final_piece, contribution, js_or.
  by destruct (enhanced_text seg) as [[|c s]|], (polished_text seg) as [[|c' s']|].
Qed.

Lemma join_join_strings (sep : jsstring) (items : list nullable) :
  join sep items = join_strings sep (join_item <$> items).
Proof.
  induction items as [|v [|w rest] IH]; [done..|].
  change (join sep (v :: w :: rest)) with (join_item v ++ sep ++ join sep (w :: rest)).
  by rewrite IH.
Qed.

Lemma getFinalText_contributions (segs : list Segment) :
  (getFinalText segs).1
  = join_strings paragraph_sep (contribution <$> js_sort by_segment_index segs).
Proof.
  unfold getFinalText. simpl. rewrite join_join_strings, <- list_fmap_compose.
  f_equal. apply list_fmap_ext. intros _ seg _. apply final_piece_contribution.
Qed.

(** C1. The final text is assembled from the segments in ascending
    [segment_index] order, each one contributing its enhanced text if
    non-empty, otherwise its polished text if non-empty, otherwise its
    original text, joined with a blank line. The order is the stable
    index-sorted one: it is the only index-sorted arrangement that keeps
    segments of equal index in list order, and with pairwise different
    indices it is the only index-sorted permutation at all, so the index
    alone fixes the output order and the order in which the list was
    loaded does not matter. A segment without stage output contributes
    its original text. The call leaves the array sorted. *)
Theorem getFinalText_sorted_by_index (segs : list Segment) :
  ∃ sorted : list Segment,
    sorted ≡ₚ segs
    ∧ StronglySorted index_le sorted
    ∧ (∀ k, with_index k sorted = with_index k segs)
    ∧ getFinalText segs
      = (join_strings paragraph_sep (contribution <$> sorted), sorted)
    ∧ (∀ other, StronglySorted index_le other →
         (∀ k, with_index k other = with_index k segs) → other = sorted)
    ∧ (NoDup (segment_index <$> segs) →
       ∀ other, other ≡ₚ segs → StronglySorted index_le other → other = sorted)
    ∧ (NoDup (segment_index <$> segs) →
       ∀ shuffled, shuffled ≡ₚ segs → getFinalText shuffled = getFinalText segs)
    ∧ (∀ seg, join_item (final_piece seg) = contribution seg)
    ∧ (∀ seg, truthy (enhanced_text seg) = false →
         truthy (polished_text seg) = false →
         final_piece seg = original_text seg).
Proof.
  exists (js_sort by_segment_index segs).
  pose proof (js_sort_perm by_segment_index segs) as Hperm.
  pose proof (js_sort_sorted segs) as Hsorted.
  split_and!; try done.
  - intros k. apply js_sort_stable.
  - apply injective_projections; [apply getFinalText_contributions | done].
  - intros other Ho Hk. apply stable_sorted_unique; [done..|].
    intros k. by rewrite Hk, js_sort_stable.
  - intros Hnd other Hp Ho. apply sorted_perm_unique; [|by rewrite Hp|done..].
    by rewrite Hp.
  - intros Hnd shuffled Hp. unfold getFinalText.
    assert (js_sort by_segment_index shuffled = js_sort by_segment_index segs) as ->;
      [|done].
    apply sorted_perm_unique; [| |apply js_sort_sorted..].
    + by rewrite js_sort_perm, Hp.
    + by rewrite !js_sort_perm.
  - apply final_piece_contribution.
  - intros seg He Hp. unfold final_piece, js_or. by rewrite He, Hp.
Qed.

(** A three-segment list delivered out of order: the skipped heading
    keeps its original text, the second segment shows its enhanced text
    and the third its polished one. *)
Example getFinalText_example :
  let seg i o p e st := mkSegment i (Some (lit o)) p e (lit st) in
  (getFinalText
     [ seg 2 "c"%string (Some (lit "C")) (Some []) "done"%string;
       seg 0 "a"%string None None "skipped"%string;
       seg 1 "b"%string (Some (lit "B")) (Some (lit "BB")) "done"%string ]).1
  = [97; 10; 10; 66; 66; 10; 10; 67]%N.
Proof. reflexivity. Qed.

(** ** Stream updates *)

Lemma array_get_Some {A : Type} (l : list A) (i : Z) (x : A) :
  array_get l i = Some x ↔ 0 ≤ i ∧ l !! Z.to_nat i = Some x.
Proof.
  unfold array_get. case_decide as Hi.
  - split; [by intros ? | by intros [_ ?]].
  - split; [done | intros [? _]; lia].
Qed.

Lemma array_get_None {A : Type} (l : list A) (i : Z) :
  array_get l i = None ↔ i < 0 ∨ Z.of_nat (length l) ≤ i.
Proof.
  unfold array_get. case_decide as Hi.
  - rewrite lookup_ge_None. lia.
  - split; [lia | done].
Qed.

Lemma array_get_of_nat {A : Type} (l : list A) (i : nat) :
  array_get l (Z.of_nat i) = l !! i.
Proof. unfold array_get. rewrite decide_True by lia. by rewrite Nat2Z.id. Qed.

Lemma apply_delta_unfold (data : StreamData) (found : Segment) :
  apply_delta data found
  = let segment :=
      if to_polished data
      then set_polished_text
             (Some (join_item (polished_text found) ++ data_content data)) found
      else if to_enhanced data
      then set_enhanced_text
             (Some (join_item (enhanced_text found) ++ data_content data)) found
      else found in
    if negb (str_eqb (seg_status segment) (lit "processing"))
    then set_seg_status (lit "processing") segment
    else segment.
Proof.
  unfold apply_delta, to_polished, to_enhanced, join_item.
  by rewrite <- !or_else_empty.
Qed.

Lemma apply_delta_status (data : StreamData) (found : Segment) :
  seg_status (apply_delta data found) = lit "processing".
Proof.
  rewrite apply_delta_unfold. cbv zeta.
  set (segment := if to_polished data then _ else _).
  destruct (str_eqb (seg_status segment) (lit "processing")) eqn:Hs; simpl; [|done].
  by apply str_eqb_eq in Hs.
Qed.

Lemma apply_delta_frame (data : StreamData) (found : Segment) :
  segment_index (apply_delta data found) = segment_index found
  ∧ original_text (apply_delta data found) = original_text found.
Proof.
  rewrite apply_delta_unfold. cbv zeta.
  by destruct (to_polished data), (to_enhanced data), (negb _).
Qed.

Lemma apply_delta_polished (data : StreamData) (found : Segment) :
  polished_text (apply_delta data found)
  = if to_polished data
    then Some (join_item (polished_text found) ++ data_content data)
    else polished_text found.
Proof.
  rewrite apply_delta_unfold. cbv zeta.
  by destruct (to_polished data), (to_enhanced data), (negb _).
Qed.

Lemma to_polished_not_enhanced (data : StreamData) :
  to_polished data = true → to_enhanced data = false.
Proof.
  unfold to_polished, to_enhanced.
  intros [H|H]%orb_prop; apply str_eqb_eq in H; rewrite H; reflexivity.
Qed.

Lemma apply_delta_enhanced (data : StreamData) (found : Segment) :
  enhanced_text (apply_delta data found)
  = if to_enhanced data
    then Some (join_item (enhanced_text found) ++ data_content data)
    else enhanced_text found.
Proof.
  rewrite apply_delta_unfold. cbv zeta.
  destruct (to_polished data) eqn:Hp.
  - rewrite (to_polished_not_enhanced _ Hp). by destruct (negb _).
  - by destruct (to_enhanced data), (negb _).
Qed.

(** The updater, position by position. *)
Lemma setSegments_updater_lookup (data : StreamData) (segs : list Segment)
    (j : nat) (seg : Segment) :
  segs !! j = Some seg →
  (setSegments_updater data segs).1 !! j
  = Some (if decide (data_segment_index data = Z.of_nat j)
          then apply_delta data seg else seg).
Proof.
  intros Hj. unfold setSegments_updater.
  destruct (array_get segs (data_segment_index data)) as [found|] eqn:Hget; simpl.
  - apply array_get_Some in Hget as [Hpos Hfound].
    case_decide as Hd.
    + rewrite Hd, Nat2Z.id in *.
      rewrite list_lookup_insert_eq by (by eapply lookup_lt_Some). congruence.
    + rewrite list_lookup_insert_ne by lia. done.
  - apply array_get_None in Hget. pose proof (lookup_lt_Some _ _ _ Hj).
    by rewrite decide_False by lia.
Qed.

Lemma setSegments_updater_length (data : StreamData) (segs : list Segment) :
  length (setSegments_updater data segs).1 = length segs.
Proof.
  unfold setSegments_updater. destruct (array_get _ _); simpl; [|done].
  apply length_insert.
Qed.

Lemma setSegments_updater_missing (data : StreamData) (segs : list Segment) :
  array_get segs (data_segment_index data) = None →
  setSegments_updater data segs
  = (segs, [ConsoleWarnSegmentNotFound (data_segment_index data)]).
Proof. intros Hget. unfold setSegments_updater. by rewrite Hget. Qed.

Lemma stream_updates_cons (data : StreamData) (evs : list StreamData)
    (segs : list Segment) :
  stream_updates (data :: evs) segs
  = stream_updates evs (setSegments_updater data segs).1.
Proof. done. Qed.

Lemma stream_updates_length (evs : list StreamData) (segs : list Segment) :
  length (stream_updates evs segs) = length segs.
Proof.
  revert segs. induction evs as [|data evs IH]; intros segs; [done|].
  by rewrite stream_updates_cons, IH, setSegments_updater_length.
Qed.

Lemma deltas_cons (target : StreamData → bool) (i : nat) (data : StreamData)
    (evs : list StreamData) :
  deltas target i (data :: evs)
  = (if decide (data_segment_index data = Z.of_nat i)
     then if target data then data_content data else []
     else [])
    ++ deltas target i evs.
Proof.
  unfold deltas. rewrite filter_cons.
  destruct (decide (data_segment_index data = Z.of_nat i)) as [Hi|Hi],
    (target data) eqn:Ht.
  - by rewrite decide_True.
  - rewrite decide_False; [done | by intros [_ ?]].
  - rewrite decide_False; [done | by intros [? _]].
  - rewrite decide_False; [done | by intros [? _]].
Qed.

(** Text accumulated in the two stage outputs of one position. *)
Lemma stream_updates_texts (evs : list StreamData) (segs : list Segment)
    (i : nat) (seg : Segment) :
  segs !! i = Some seg →
  ∃ seg', stream_updates evs segs !! i = Some seg'
    ∧ join_item (polished_text seg')
      = join_item (polished_text seg) ++ deltas to_polished i evs
    ∧ join_item (enhanced_text seg')
      = join_item (enhanced_text seg) ++ deltas to_enhanced i evs.
Proof.
  revert segs seg. induction evs as [|data evs IH]; intros segs seg Hi.
  - exists seg. unfold deltas. simpl. by rewrite !app_nil_r.
  - rewrite stream_updates_cons.
    pose proof (setSegments_updater_lookup data segs i seg Hi) as Hstep.
    destruct (IH _ _ Hstep) as (seg' & Hseg' & Hp & He).
    exists seg'. split; [done|].
    rewrite Hp, He, !deltas_cons.
    case_decide as Hd; [|done].
    rewrite apply_delta_polished, apply_delta_enhanced.
    destruct (to_polished data) eqn:Htp.
    + rewrite (to_polished_not_enhanced _ Htp). simpl. by rewrite <- !app_assoc.
    + destruct (to_enhanced data); simpl; by rewrite <- ?app_assoc.
Qed.


(** *** Positions and indices *)

Lemma seqZ_sorted (m : Z) (n : nat) : StronglySorted Z.le (seqZ m (Z.of_nat n)).
Proof.
  revert m. induction n as [|n IH]; intros m.
  - rewrite seqZ_nil by lia. constructor.
  - rewrite seqZ_cons by lia. replace (Z.pred (Z.of_nat (S n))) with (Z.of_nat n) by lia.
    constructor; [apply IH|].
    apply Forall_seqZ. intros k Hk. lia.
Qed.

(** Rendering sorts the array in place; with indices 0 .. n-1 each
    segment then sits at the position of its index. *)
Lemma getFinalText_aligned (segs : list Segment) :
  ordinal_indices segs → aligned (getFinalText segs).2.
Proof.
  unfold ordinal_indices, getFinalText. simpl. intros Hord.
  set (sorted := js_sort by_segment_index segs).
  assert (segment_index <$> sorted = seqZ 0 (Z.of_nat (length segs))) as Hidx.
  { apply (StronglySorted_unique Z.le).
    - apply (StronglySorted_fmap _ index_le); [done | apply js_sort_sorted].
    - apply seqZ_sorted.
    - subst sorted. by rewrite js_sort_perm. }
  intros i seg Hi.
  assert ((segment_index <$> sorted) !! i = Some (segment_index seg)) as Hlook.
  { by rewrite list_lookup_fmap, Hi. }
  rewrite Hidx in Hlook. apply lookup_seqZ in Hlook as [-> _]. lia.
Qed.

Lemma setSegments_updater_aligned (data : StreamData) (segs : list Segment) :
  aligned segs → aligned (setSegments_updater data segs).1.
Proof.
  intros Hal i seg' Hi.
  assert (is_Some (segs !! i)) as [seg Hseg].
  { apply lookup_lt_is_Some. rewrite <- (setSegments_updater_length data).
    by eapply lookup_lt_Some. }
  rewrite (setSegments_updater_lookup data segs i seg Hseg) in Hi.
  simplify_eq. case_decide.
  - rewrite (proj1 (apply_delta_frame data seg)). by apply Hal.
  - by apply Hal.
Qed.

(** C9. A content event changes at most the segment at the position it
    names, and of that segment at most one of the two stage texts and
    the status: the list keeps its length, every other segment is the
    same, and every segment keeps its [original_text] and
    [segment_index]. On a list laid out by index, the segments whose
    index differs from the event's are the untouched ones, and the
    layout is kept. *)
Theorem setSegments_updater_frame (data : StreamData) (segs : list Segment) :
  let segs' := (setSegments_updater data segs).1 in
  length segs' = length segs
  ∧ (∀ (j : nat) (seg : Segment), segs !! j = Some seg →
      ∃ seg', segs' !! j = Some seg'
        ∧ segment_index seg' = segment_index seg
        ∧ original_text seg' = original_text seg
        ∧ (data_segment_index data ≠ Z.of_nat j → seg' = seg)
        ∧ (polished_text seg' = polished_text seg
           ∨ enhanced_text seg' = enhanced_text seg)
        ∧ (polished_text seg' ≠ polished_text seg →
           data_stage data = lit "polish" ∨ data_stage data = lit "emotion_polish")
        ∧ (enhanced_text seg' ≠ enhanced_text seg → data_stage data = lit "enhance"))
  ∧ (aligned segs →
     aligned segs'
     ∧ ∀ (j : nat) (seg : Segment), segs !! j = Some seg →
         segment_index seg ≠ data_segment_index data → segs' !! j = Some seg).
Proof.
  cbv zeta. split_and!; [apply setSegments_updater_length| |].
  - intros j seg Hj. eexists. split; [by apply setSegments_updater_lookup|].
    case_decide as Hd.
    + destruct (apply_delta_frame data seg) as [Hidx Horig].
      rewrite apply_delta_polished, apply_delta_enhanced.
      split_and!; try done.
      * destruct (to_polished data) eqn:Htp; [|by left].
        right. by rewrite (to_polished_not_enhanced _ Htp).
      * unfold to_polished.
        destruct (str_eqb (data_stage data) (lit "polish")) eqn:H1;
          [left; by apply str_eqb_eq|].
        destruct (str_eqb (data_stage data) (lit "emotion_polish")) eqn:H2;
          [right; by apply str_eqb_eq|].
        simpl. by intros [].
      * unfold to_enhanced.
        destruct (str_eqb (data_stage data) (lit "enhance")) eqn:H1;
          [intros _; by apply str_eqb_eq | by intros []].
    + split_and!; first [done | by left | (intros Hne; by destruct Hne)].
  - intros Hal. split; [by apply setSegments_updater_aligned|].
    intros j seg Hj Hne.
    rewrite (setSegments_updater_lookup data segs j seg Hj).
    rewrite decide_False; [done|]. rewrite <- (Hal j seg Hj). congruence.
Qed.

(** C10, for numeric indices. A content event whose segment index is
    a number that names no loaded segment, be it negative or past the
    end, leaves the segment list as it is: the updater returns its
    argument and throws nothing, and the only other thing it does is log
    a warning. The handler's second updater, on the session, runs as
    for any content event. *)
Theorem setSegments_updater_out_of_range (data : StreamData) (st : DetailState) :
  data_segment_index data < 0
  ∨ Z.of_nat (length (segments st)) ≤ data_segment_index data →
  ¬ names_segment (IndexNumber (data_segment_index data)) (segments st)
  ∧ setSegments_updater_at (IndexNumber (data_segment_index data)) data (segments st)
    = ReturnsList (segments st)
  ∧ setSegments_updater data (segments st)
    = (segments st, [ConsoleWarnSegmentNotFound (data_segment_index data)])
  ∧ segments (handleStreamUpdate data st).1 = segments st
  ∧ (handleStreamUpdate data st).2
    = [ConsoleWarnSegmentNotFound (data_segment_index data)]
  ∧ session (handleStreamUpdate data st).1 = setSession_updater (session st)
  ∧ (∀ toast, data_type data = lit "content" →
     segments (onmessage toast (Some data) st).1 = segments st).
Proof.
  intros Hrange. apply array_get_None in Hrange.
  pose proof (setSegments_updater_missing data (segments st) Hrange) as Hu.
  assert (handleStreamUpdate data st
          = (mkDetailState (setSession_updater (session st)) (segments st),
             [ConsoleWarnSegmentNotFound (data_segment_index data)])) as Hh.
  { unfold handleStreamUpdate. by rewrite Hu. }
  assert (with_segment_index (data_segment_index data) data = data) as Hsame.
  { by destruct data. }
  split_and!; [| | done | by rewrite Hh | by rewrite Hh | by rewrite Hh |].
  - unfold names_segment. rewrite Hrange. by intros [? ?].
  - unfold setSegments_updater_at. by rewrite Hsame, Hu.
  - intros toast Ht. unfold onmessage.
    apply str_eqb_eq in Ht. by rewrite Ht, Hh.
Qed.

(** A content event whose segment index is the string ["length"] names
    no loaded segment, yet on a non-empty list the updater does not
    return the list: it throws. *)
Lemma segment_index_length_throws :
  let seg := mkSegment 0 (Some (lit "source")) None None (lit "pending") in
  let data := mkStreamData (lit "content") 0 (lit "polish") (lit "x") [] in
  ¬ names_segment IndexLength [seg]
  ∧ setSegments_updater_at IndexLength data [seg] = ThrowsRangeError
  ∧ setSegments_updater_at IndexLength data [seg] ≠ ReturnsList [seg].
Proof. cbv zeta. split_and!; [by intros [] | done | done]. Qed.

Lemma onmessage_state_history_compressed (toast : ToastLibrary) (data : StreamData)
    (st : DetailState) :
  data_type data = lit "history_compressed" → (onmessage toast (Some data) st).1 = st.
Proof.
  intros Ht. unfold onmessage. rewrite Ht.
  change (str_eqb (lit "history_compressed") (lit "content")) with false.
  change (str_eqb (lit "history_compressed") (lit "history_compressed")) with true.
  cbv iota. by destruct (has_info toast).
Qed.

(** A message of type history_compressed under either kind of toast
    library: the page state is what it was; a library with [info] shows
    the toast, one without it leaves the call to throw into the
    handler's [catch], which only logs. *)
Lemma onmessage_history_compressed (toast : ToastLibrary) (data : StreamData)
    (st : DetailState) :
  data_type data = lit "history_compressed" →
  (onmessage toast (Some data) st).1 = st
  ∧ segments (onmessage toast (Some data) st).1 = segments st
  ∧ session (onmessage toast (Some data) st).1 = session st
  ∧ (has_info toast = true →
     onmessage toast (Some data) st = (st, [ToastInfo (data_message data)]))
  ∧ (has_info toast = false →
     onmessage toast (Some data) st
     = (st, [ConsoleError (lit "Error parsing SSE data:")])).
Proof.
  intros Ht.
  pose proof (onmessage_state_history_compressed toast data st Ht) as Hst.
  split_and!; [done | by rewrite Hst | by rewrite Hst | |].
  - intros Hinfo. unfold onmessage. rewrite Ht, Hinfo. reflexivity.
  - intros Hinfo. unfold onmessage. rewrite Ht, Hinfo. reflexivity.
Qed.

(** C8, as the page behaves with the library it imports. A message of
    type history_compressed shows no notification: the handler calls
    [toast.info], which react-hot-toast does not have, the call throws
    into the handler's [catch], and all that happens is an error line on
    the console. The page state, with every segment's texts and status
    and the session's status, is what it was. *)
Theorem history_compressed_shows_no_toast (st : DetailState)
    (index : Z) (stage content message : jsstring) :
  let data := mkStreamData (lit "history_compressed") index stage content
                message in
  onmessage react_hot_toast (Some data) st
  = (st, [ConsoleError (lit "Error parsing SSE data:")])
  ∧ (∀ msg, ToastInfo msg ∉ (onmessage react_hot_toast (Some data) st).2)
  ∧ segments (onmessage react_hot_toast (Some data) st).1 = segments st
  ∧ session (onmessage react_hot_toast (Some data) st).1 = session st.
Proof.
  cbv zeta.
  assert (onmessage react_hot_toast
            (Some (mkStreamData (lit "history_compressed") index stage
                     content message)) st
          = (st, [ConsoleError (lit "Error parsing SSE data:")])) as Ho.
  { reflexivity. }
  rewrite Ho. split_and!; try done.
  intros msg Hin. apply elem_of_cons in Hin as [Heq|Hin]; [done|].
  by apply elem_of_nil in Hin.
Qed.

(** Messages that are not content events leave the segment list alone:
    what a delivery does to it is the stream updates of its content
    events. *)
Lemma deliver_segments (toast : ToastLibrary) (msgs : list StreamData)
    (st : DetailState) :
  segments (deliver toast msgs st)
  = stream_updates (filter (λ d, data_type d = lit "content") msgs) (segments st).
Proof.
  revert st. induction msgs as [|data msgs IH]; intros st; [done|].
  unfold deliver in *. simpl. rewrite IH, filter_cons. clear IH.
  unfold onmessage. case_decide as Ht.
  - rewrite (proj2 (str_eqb_eq _ _) Ht). rewrite stream_updates_cons.
    unfold handleStreamUpdate. by destruct (setSegments_updater data (segments st)).
  - rewrite (proj2 (str_eqb_neq _ _) Ht).
    by destruct (str_eqb _ _), (has_info toast).
Qed.

Lemma handleStreamUpdate_segments (data : StreamData) (st : DetailState) :
  segments (handleStreamUpdate data st).1 = (setSegments_updater data (segments st)).1.
Proof.
  unfold handleStreamUpdate. by destruct (setSegments_updater data (segments st)).
Qed.

Lemma onmessage_content (toast : ToastLibrary) (data : StreamData) (st : DetailState) :
  data_type data = lit "content" →
  onmessage toast (Some data) st = handleStreamUpdate data st.
Proof. intros Ht. unfold onmessage. by rewrite Ht. Qed.

(** C2. Processing a received content event for a loaded segment
    appends the event's text to that segment's [polished_text] when the
    stage is polish or emotion_polish and to its [enhanced_text] when
    the stage is enhance, an absent text counting as empty. So after
    any sequence of received messages each of the two stage outputs is
    what it was at the start followed by the payloads of the content
    events routed to it, in delivery order; from an empty output it is
    exactly their concatenation, and one delta carrying the full text
    yields the full text. *)
Theorem deliver_concatenates (toast : ToastLibrary) (st : DetailState) (i : nat)
    (seg : Segment) :
  segments st !! i = Some seg →
  (∀ data, data_type data = lit "content" →
     data_segment_index data = Z.of_nat i →
     ∃ seg', segments (onmessage toast (Some data) st).1 !! i = Some seg'
       ∧ segments (handleStreamUpdate data st).1 !! i = Some seg'
       ∧ (data_stage data = lit "polish" ∨ data_stage data = lit "emotion_polish" →
          polished_text seg'
          = Some (join_item (polished_text seg) ++ data_content data))
       ∧ (data_stage data = lit "enhance" →
          enhanced_text seg'
          = Some (join_item (enhanced_text seg) ++ data_content data)))
  ∧ (∀ msgs,
       let evs := filter (λ d, data_type d = lit "content") msgs in
       ∃ seg', segments (deliver toast msgs st) !! i = Some seg'
         ∧ join_item (polished_text seg')
           = join_item (polished_text seg) ++ deltas to_polished i evs
         ∧ join_item (enhanced_text seg')
           = join_item (enhanced_text seg) ++ deltas to_enhanced i evs
         ∧ (truthy (polished_text seg) = false →
            join_item (polished_text seg') = deltas to_polished i evs)
         ∧ (truthy (enhanced_text seg) = false →
            join_item (enhanced_text seg') = deltas to_enhanced i evs))
  ∧ (∀ data, data_type data = lit "content" →
       data_segment_index data = Z.of_nat i →
       ∃ seg', segments (deliver toast [data] st) !! i = Some seg'
         ∧ (to_polished data = true → truthy (polished_text seg) = false →
            polished_text seg' = Some (data_content data))
         ∧ (to_enhanced data = true → truthy (enhanced_text seg) = false →
            enhanced_text seg' = Some (data_content data))).
Proof.
  intros Hi.
  assert (∀ data, data_type data = lit "content" →
            data_segment_index data = Z.of_nat i →
            segments (onmessage toast (Some data) st).1 !! i
            = Some (apply_delta data seg)) as Hone.
  { intros data Ht Hd.
    rewrite (onmessage_content toast data st Ht), handleStreamUpdate_segments.
    rewrite (setSegments_updater_lookup data (segments st) i seg Hi).
    by rewrite decide_True. }
  split_and!.
  - intros data Ht Hd. exists (apply_delta data seg). split_and!.
    + by apply Hone.
    + rewrite <- (onmessage_content toast data st Ht). by apply Hone.
    + intros Hst. rewrite apply_delta_polished.
      replace (to_polished data) with true; [done|].
      symmetry. unfold to_polished. apply orb_true_iff.
      destruct Hst as [Hst|Hst]; [left|right]; by apply str_eqb_eq.
    + intros Hst. rewrite apply_delta_enhanced.
      replace (to_enhanced data) with true; [done|].
      symmetry. by apply str_eqb_eq.
  - intros msgs. cbv zeta. rewrite deliver_segments.
    destruct (stream_updates_texts
                (filter (λ d, data_type d = lit "content") msgs) (segments st) i seg Hi)
      as (seg' & Hseg' & Hp & He).
    exists seg'. split_and!; try done.
    + intros Hf. rewrite Hp. by destruct (polished_text seg) as [[|??]|].
    + intros Hf. rewrite He. by destruct (enhanced_text seg) as [[|??]|].
  - intros data Ht Hd. exists (apply_delta data seg). split_and!.
    + unfold deliver. simpl. by apply Hone.
    + intros Htp Hf. rewrite apply_delta_polished, Htp.
      by destruct (polished_text seg) as [[|??]|].
    + intros Hte Hf. rewrite apply_delta_enhanced, Hte.
      by destruct (enhanced_text seg) as [[|??]|].
Qed.

(** ** Segments marked as processing *)

Lemma count_processing_cons (seg : Segment) (segs : list Segment) :
  count_processing (seg :: segs)
  = ((if decide (is_processing seg) then 1 else 0) + count_processing segs)%nat.
Proof. unfold count_processing. rewrite filter_cons. by case_decide. Qed.

Lemma count_processing_insert (segs : list Segment) (i : nat) (seg seg' : Segment) :
  segs !! i = Some seg →
  (count_processing (<[i:=seg']> segs) + (if decide (is_processing seg) then 1 else 0)
   = count_processing segs + (if decide (is_processing seg') then 1 else 0))%nat.
Proof.
  revert i. induction segs as [|x segs IH]; intros [|i] Hi; simplify_eq/=.
  - rewrite !count_processing_cons. unfold is_processing in *.
    repeat case_decide; first [lia | done].
  - rewrite !count_processing_cons. specialize (IH i Hi).
    unfold is_processing in *. repeat case_decide; first [lia | done].
Qed.

Lemma setSegments_updater_count (data : StreamData) (segs : list Segment) :
  (count_processing segs ≤ count_processing (setSegments_updater data segs).1)%nat.
Proof.
  unfold setSegments_updater.
  destruct (array_get segs (data_segment_index data)) as [found|] eqn:Hget; simpl; [|done].
  apply array_get_Some in Hget as [_ Hfound].
  pose proof (count_processing_insert segs _ found (apply_delta data found) Hfound) as Hc.
  rewrite (decide_True (P := is_processing (apply_delta data found))) in Hc
    by apply apply_delta_status.
  case_decide; lia.
Qed.

Lemma stream_updates_count (evs : list StreamData) (segs : list Segment) :
  (count_processing segs ≤ count_processing (stream_updates evs segs))%nat.
Proof.
  revert segs. induction evs as [|data evs IH]; intros segs; [done|].
  rewrite stream_updates_cons. etrans; [apply setSegments_updater_count | apply IH].
Qed.

(** The status of one position after a sequence of content events. *)
Lemma stream_updates_status (evs : list StreamData) (segs : list Segment)
    (j : nat) (seg : Segment) :
  segs !! j = Some seg →
  ∃ seg', stream_updates evs segs !! j = Some seg'
    ∧ seg_status seg'
      = if decide (Exists (λ d, data_segment_index d = Z.of_nat j) evs)
        then lit "processing" else seg_status seg.
Proof.
  revert segs seg. induction evs as [|data evs IH]; intros segs seg Hj.
  - exists seg. split; [done|]. rewrite decide_False; [done | by intros ?%Exists_nil].
  - rewrite stream_updates_cons.
    pose proof (setSegments_updater_lookup data segs j seg Hj) as Hstep.
    destruct (IH _ _ Hstep) as (seg' & Hseg' & Hst).
    exists seg'. split; [done|]. rewrite Hst.
    destruct (decide (Exists (λ d, data_segment_index d = Z.of_nat j) evs)) as [He|He].
    + rewrite decide_True; [done | by apply Exists_cons_tl].
    + destruct (decide (data_segment_index data = Z.of_nat j)) as [Hd|Hd].
      * rewrite decide_True by (by apply Exists_cons_hd). apply apply_delta_status.
      * rewrite decide_False; [done|]. by intros [?|?]%Exists_cons.
Qed.

(** Events that all name one index mark at most that one segment. *)
Lemma stream_updates_single_index (idx : Z) (evs : list StreamData)
    (segs : list Segment) :
  (count_processing segs = 0%nat
   ∨ count_processing segs = 1%nat
     ∧ ∃ seg, array_get segs idx = Some seg ∧ is_processing seg) →
  Forall (λ d, data_segment_index d = idx) evs →
  (count_processing (stream_updates evs segs) ≤ 1)%nat.
Proof.
  intros Hinv Hall. revert segs Hinv.
  induction Hall as [|data evs Hd Hall IH]; intros segs Hinv.
  { simpl. destruct Hinv as [->|[-> _]]; lia. }
  rewrite stream_updates_cons. apply IH. clear IH.
  unfold setSegments_updater. rewrite Hd.
  destruct (array_get segs idx) as [found|] eqn:Hget; simpl; last first.
  { destruct Hinv as [?|[_ (seg & Hseg & _)]]; [by left | congruence]. }
  pose proof Hget as [Hpos Hfound]%array_get_Some.
  pose proof (count_processing_insert segs _ found (apply_delta data found) Hfound) as Hc.
  rewrite (decide_True (P := is_processing (apply_delta data found))) in Hc
    by apply apply_delta_status.
  assert (array_get (<[Z.to_nat idx:=apply_delta data found]> segs) idx
          = Some (apply_delta data found)) as Hnew.
  { apply array_get_Some. split; [done|].
    apply list_lookup_insert_eq. by eapply lookup_lt_Some. }
  destruct Hinv as [H0|[H1 (seg & Hseg & Hproc)]].
  - case_decide.
    + left. lia.
    + right. split; [lia|]. eexists. split; [done | apply apply_delta_status].
  - simplify_eq. rewrite decide_True in Hc by done.
    right. split; [lia|]. eexists. split; [done | apply apply_delta_status].
Qed.

(** C6, as the code has it. In the page's segment state a content event
    marks the segment at its position as processing and nothing in the
    stream handler takes the mark back: after a sequence of content
    events a loaded segment is processing exactly if it was before or an
    event named its position, any other status is kept, and the number
    of processing segments never goes down. It stays at most one when it
    started at zero and all events name the same index. *)
Theorem stream_updates_processing_marks (evs : list StreamData) (segs : list Segment) :
  (∀ (j : nat) (seg : Segment), segs !! j = Some seg →
     ∃ seg', stream_updates evs segs !! j = Some seg'
       ∧ (is_processing seg' ↔
          is_processing seg ∨ ∃ d, d ∈ evs ∧ data_segment_index d = Z.of_nat j)
       ∧ ((∀ d, d ∈ evs → data_segment_index d ≠ Z.of_nat j) →
          seg_status seg' = seg_status seg))
  ∧ (count_processing segs ≤ count_processing (stream_updates evs segs))%nat
  ∧ (∀ idx, count_processing segs = 0%nat →
       (∀ d, d ∈ evs → data_segment_index d = idx) →
       (count_processing (stream_updates evs segs) ≤ 1)%nat).
Proof.
  split_and!.
  - intros j seg Hj.
    destruct (stream_updates_status evs segs j seg Hj) as (seg' & Hseg' & Hst).
    exists seg'. split; [done|]. unfold is_processing. rewrite Hst.
    case_decide as He; rewrite Exists_exists in He.
    + split; [|intros Hno; destruct He as (d & Hd & Hdj); by destruct (Hno d Hd)].
      split; [by right | done].
    + split; [|done]. split; [by left | by intros [?|?]].
  - apply stream_updates_count.
  - intros idx H0 Hall. apply (stream_updates_single_index idx); [by left|].
    by apply Forall_forall.
Qed.

(** Two pending segments, one content event for each: both end up
    processing at the same time. *)
Lemma two_segments_marked_processing :
  let pending i := mkSegment i (Some (lit "text")) None None (lit "pending") in
  let content i := mkStreamData (lit "content") i (lit "polish") (lit "x") [] in
  let st := mkDetailState None [pending 0; pending 1] in
  let after :=
    count_processing
      (segments (deliver (mkToastLibrary true) [content 0; content 1] st)) in
  count_processing (segments st) = 0%nat ∧ after = 2%nat ∧ ¬ (after ≤ 1)%nat.
Proof. vm_compute. split_and!; [done | done | lia]. Qed.

(** ** Submission *)

Lemma handleStartOptimization_blank (c : WorkspaceState) :
  forallb is_whitespace (text c) = true →
  handleStartOptimization c = Emit (ToastError msg_enter_text) Done.
Proof.
  intros Hblank. unfold handleStartOptimization.
  by rewrite (trim_blank _ Hblank).
Qed.

(** A document with visible text, submitted while no submission is under
    way, is sent to the server: the blank check is the only gate. *)
Lemma handleStartOptimization_sends (c : WorkspaceState) (env : Env)
    (st : WorkspaceState) :
  forallb is_whitespace (text c) = false → isSubmitting c = false →
  ∃ tr, (run env (handleStartOptimization c) st).2
        = Sent (StartOptimization (text c) (processingMode c))
            (answer_request env (StartOptimization (text c) (processingMode c)))
          :: tr.
Proof.
  intros Htext Hsub. unfold handleStartOptimization.
  destruct (trim (text c)) as [|u t] eqn:Htrim.
  { apply trim_nil_iff in Htrim. congruence. }
  rewrite Hsub. simpl.
  destruct (run env _ _) as [st' tr]. by exists tr.
Qed.

(** C3. A submission whose text is empty or whitespace only is rejected
    before anything is awaited: the handler shows the error toast and
    ends. No start-optimization request, nor any other, is sent, so no
    session is created, and the page state, with its active session and
    its session list, is what it was. *)
Theorem handleStartOptimization_rejects_blank (c : WorkspaceState) (env : Env)
    (st : WorkspaceState) :
  forallb is_whitespace (text c) = true →
  handleStartOptimization c = Emit (ToastError msg_enter_text) Done
  ∧ run env (handleStartOptimization c) st = (st, [Out (ToastError msg_enter_text)])
  ∧ requests (run env (handleStartOptimization c) st).2 = []
  ∧ activeSession (run env (handleStartOptimization c) st).1 = activeSession st
  ∧ sessions (run env (handleStartOptimization c) st).1 = sessions st.
Proof.
  intros Hblank. rewrite (handleStartOptimization_blank c Hblank). by simpl.
Qed.

(** ** Retry *)

Lemma handleRetrySegment_not_failed (s : Session) :
  sess_status s ≠ lit "failed" → handleRetrySegment s = Done.
Proof.
  intros Hs. unfold handleRetrySegment.
  by rewrite (proj2 (str_eqb_neq _ _) Hs).
Qed.

Lemma handleRetry_not_failed (s : Session)
    (onRetry : Session → prog WorkspaceState) :
  sess_status s ≠ lit "failed" → handleRetry s onRetry = Emit StopPropagation Done.
Proof.
  intros Hs. unfold handleRetry.
  by rewrite (proj2 (str_eqb_neq _ _) Hs).
Qed.

(** A failed session whose owner confirms is retried. *)
Lemma handleRetrySegment_failed (s : Session) (env : Env) (st : WorkspaceState) :
  sess_status s = lit "failed" → answer_confirm env msg_confirm_retry = true →
  RetryFailedSegments (session_id s)
  ∈ requests (run env (handleRetrySegment s) st).2.
Proof.
  intros Hs Hok. unfold handleRetrySegment. rewrite Hs. simpl. rewrite Hok. simpl.
  destruct (run env _ _) as [st' tr]. simpl. left.
Qed.

(** A retry request in a run of either handler means the session had
    failed. *)
Lemma retry_request_needs_failed (s : Session) (env : Env) (st : WorkspaceState)
    (sid : jsstring) :
  RetryFailedSegments sid ∈ requests (run env (handleRetrySegment s) st).2
  ∨ RetryFailedSegments sid
    ∈ requests (run env (handleRetry s handleRetrySegment) st).2 →
  sess_status s = lit "failed".
Proof.
  destruct (decide (sess_status s = lit "failed")) as [|Hs]; [done|].
  rewrite (handleRetrySegment_not_failed s Hs), (handleRetry_not_failed s _ Hs).
  simpl. by intros [?%elem_of_nil|?%elem_of_nil].
Qed.

(** C4. For a session that has not failed, so in status completed,
    stopped, processing or queued, neither retry handler sends a retry
    request: the list item's handler only stops the click from
    propagating, the page's handler returns at once, the page state is
    untouched and the retry button is not rendered. *)
Theorem retry_handlers_need_failed (s : Session) (env : Env) (st : WorkspaceState) :
  sess_status s ∈ [lit "completed"; lit "stopped"; lit "processing"; lit "queued"]
  ∨ sess_status s ≠ lit "failed" →
  handleRetrySegment s = Done
  ∧ handleRetry s handleRetrySegment = Emit StopPropagation Done
  ∧ run env (handleRetrySegment s) st = (st, [])
  ∧ run env (handleRetry s handleRetrySegment) st = (st, [Out StopPropagation])
  ∧ requests (run env (handleRetrySegment s) st).2 = []
  ∧ requests (run env (handleRetry s handleRetrySegment) st).2 = []
  ∧ retryButtonRendered s = false.
Proof.
  intros Hstatus.
  assert (sess_status s ≠ lit "failed") as Hs.
  { destruct Hstatus as [Hin|?]; [|done].
    intros Hf. rewrite Hf in Hin.
    repeat (apply elem_of_cons in Hin as [Heq|Hin]; [by vm_compute in Heq|]).
    by apply elem_of_nil in Hin. }
  rewrite (handleRetrySegment_not_failed s Hs), (handleRetry_not_failed s _ Hs).
  split_and!; try done.
  unfold retryButtonRendered. by apply str_eqb_neq.
Qed.

(** ** Stop *)

Lemma StopButton_in_flight (s : Session) :
  StopButton ∈ headerItems s ↔ is_in_flight s = true.
Proof.
  unfold headerItems, is_in_flight.
  destruct (str_eqb (sess_status s) (lit "completed")),
    (str_eqb (sess_status s) (lit "failed")),
    (str_eqb (sess_status s) (lit "stopped")),
    (str_eqb (sess_status s) (lit "processing") || str_eqb (sess_status s) (lit "queued"));
    simpl; rewrite ?elem_of_cons, ?elem_of_nil; intuition congruence.
Qed.

Lemma StopButton_rendered (s : Session) :
  StopButton ∈ headerItems s
  ↔ sess_status s = lit "processing" ∨ sess_status s = lit "queued".
Proof.
  rewrite StopButton_in_flight. unfold is_in_flight.
  by rewrite orb_true_iff, !str_eqb_eq.
Qed.

Lemma handleStop_confirmed (sessionId : jsstring) (env : Env) (st : DetailState) :
  answer_confirm env msg_confirm_stop = true →
  ∃ tr, (run env (handleStop sessionId) st).2
        = Asked msg_confirm_stop true
          :: Sent (StopSession sessionId) (answer_request env (StopSession sessionId))
          :: tr.
Proof.
  intros Hok. unfold handleStop. simpl. rewrite Hok. simpl.
  destruct (run env _ st) as [st' tr]. by exists tr.
Qed.

Lemma handleStop_reloads (sessionId : jsstring) (env : Env) (st : DetailState)
    (ack detail : ResponseData) (reloaded : Session) :
  answer_confirm env msg_confirm_stop = true →
  answer_request env (StopSession sessionId) = Resolved ack →
  answer_request env (GetSessionDetail sessionId) = Resolved detail →
  r_session detail = Some reloaded →
  (run env (handleStop sessionId) st).1
  = mkDetailState (Some reloaded) (default [] (r_segments detail)).
Proof.
  intros Hok Hstop Hget Hreloaded. unfold handleStop, loadSessionDetail. simpl.
  rewrite Hok. simpl. rewrite Hstop. simpl. rewrite Hget. simpl.
  by rewrite Hreloaded.
Qed.

(** C7. The stop button is rendered exactly while the session is
    processing or queued, and not for a completed, failed or stopped
    one. Where it is rendered, a confirmed click sends the stop request
    for the session, and once the server has stopped it the reloaded
    session replaces the page's copy, which then shows stopped. *)
Theorem stop_offered_while_in_flight (s : Session) :
  (StopButton ∈ headerItems s
   ↔ sess_status s = lit "processing" ∨ sess_status s = lit "queued")
  ∧ (sess_status s ∈ [lit "completed"; lit "failed"; lit "stopped"] →
     StopButton ∉ headerItems s)
  ∧ (StopButton ∈ headerItems s →
     ∀ (env : Env) (st : DetailState),
       answer_confirm env msg_confirm_stop = true →
       (∃ tr, (run env (onClick (session_id s) StopButton) st).2
              = Asked msg_confirm_stop true
                :: Sent (StopSession (session_id s))
                     (answer_request env (StopSession (session_id s)))
                :: tr)
       ∧ ∀ ack detail,
           answer_request env (StopSession (session_id s)) = Resolved ack →
           answer_request env (GetSessionDetail (session_id s)) = Resolved detail →
           r_session detail = Some (with_status (lit "stopped") s) →
           session (run env (onClick (session_id s) StopButton) st).1
           = Some (with_status (lit "stopped") s)).
Proof.
  split_and!.
  - apply StopButton_rendered.
  - intros Hin. rewrite StopButton_rendered. intros [Hs|Hs]; rewrite Hs in Hin;
      repeat (apply elem_of_cons in Hin as [Heq|Hin]; [by vm_compute in Heq|]);
      by apply elem_of_nil in Hin.
  - intros _ env st Hok. split.
    + by apply handleStop_confirmed.
    + intros ack detail Hstop Hget Hreloaded. unfold onClick.
      by rewrite (handleStop_reloads _ env st ack detail _ Hok Hstop Hget Hreloaded).
Qed.

(** ** Admission ceiling *)

Section admission.
Context {Id : Type} `{EqDecision Id}.
Import Admission.

Implicit Types (c : Controller (Id := Id)) (s : Id) (o : op (Id := Id)).

Lemma remove_first_length s (l : list Id) :
  (length (remove_first s l) ≤ length l)%nat.
Proof.
  induction l as [|x l IH]; simpl; [done|]. case_decide; simpl; lia.
Qed.

(** Promotion never admits beyond the ceiling: the active sessions grow
    at most up to it. *)
Lemma promote_bound (ceiling : nat) (act queue : list Id) :
  (length (promote ceiling act queue).1 ≤ Nat.max (length act) ceiling)%nat.
Proof.
  revert act. induction queue as [|s rest IH]; intros act; simpl; [lia|].
  case_decide as Hfree; [|simpl; lia].
  etrans; [apply IH|]. rewrite length_app. simpl. lia.
Qed.

Lemma scan_max_count c : max_count (scan c) = max_count c.
Proof. unfold scan. by destruct (promote _ _ _). Qed.

Lemma scan_bound c :
  (processing_count (scan c) ≤ Nat.max (processing_count c) (max_count c))%nat.
Proof.
  unfold processing_count.
  pose proof (promote_bound (max_count c) (active c) (waiting c)) as Hp.
  unfold scan. by destruct (promote _ _ _).
Qed.

Lemma step_bound c o :
  (processing_count (step c o)
   ≤ Nat.max (processing_count c) (max_count (step c o)))%nat.
Proof.
  destruct o as [s|s|s|n]; simpl.
  - unfold submit, processing_count. case_decide; simpl; [|lia].
    rewrite length_app. simpl. lia.
  - unfold release. rewrite scan_max_count. etrans; [apply scan_bound|].
    unfold processing_count. simpl.
    pose proof (remove_first_length s (active c)). lia.
  - unfold processing_count. simpl. lia.
  - unfold configure. rewrite scan_max_count. etrans; [apply scan_bound|].
    unfold processing_count. simpl. lia.
Qed.

Lemma step_max_count c o :
  max_count (step c o)
  = match o with Configure n => n | _ => max_count c end.
Proof.
  destruct o as [s|s|s|n]; simpl.
  - unfold submit. by case_decide.
  - unfold release. by rewrite scan_max_count.
  - done.
  - unfold configure. by rewrite scan_max_count.
Qed.

(** A step keeps the count within the ceiling unless it lowers the
    ceiling below the number of active sessions. *)
Lemma step_within c o :
  within_ceiling c →
  (∀ n, o = Configure n → processing_count c ≤ n)%nat →
  within_ceiling (step c o).
Proof.
  unfold within_ceiling. intros Hc Hcfg.
  pose proof (step_bound c o) as Hb. rewrite step_max_count in Hb |- *.
  destruct o as [s|s|s|n]; try lia.
  specialize (Hcfg n eq_refl). lia.
Qed.

Lemma run_ops_snoc (ops : list (op (Id := Id))) o c :
  run_ops (ops ++ [o]) c = step (run_ops ops c) o.
Proof. unfold run_ops. by rewrite foldl_app. Qed.

Lemma run_ops_within (ceiling : nat) (ops : list (op (Id := Id))) :
  (∀ ops1 n ops2, ops = ops1 ++ Configure n :: ops2 →
     processing_count (run_ops ops1 (init ceiling)) ≤ n)%nat →
  within_ceiling (run_ops ops (init ceiling)).
Proof.
  induction ops as [|o ops IH] using rev_ind; intros Hcfg.
  - unfold within_ceiling, processing_count. simpl. lia.
  - rewrite run_ops_snoc. apply step_within.
    + apply IH. intros ops1 n ops2 ->.
      apply (Hcfg ops1 n (ops2 ++ [o])). by rewrite <- app_assoc.
    + intros n ->. by apply (Hcfg ops n []).
Qed.

Lemma run_ops_peak (ops : list (op (Id := Id))) c (pk : nat) :
  (processing_count c ≤ pk)%nat → (max_count c ≤ pk)%nat →
  (processing_count (run_ops ops c)
   ≤ foldl (λ acc o, match o with Configure n => Nat.max acc n | _ => acc end)
       pk ops)%nat
  ∧ (max_count (run_ops ops c)
     ≤ foldl (λ acc o, match o with Configure n => Nat.max acc n | _ => acc end)
         pk ops)%nat.
Proof.
  revert c pk. induction ops as [|o ops IH]; intros c pk Hc Hm; [done|].
  simpl. pose proof (step_bound c o) as Hb. pose proof (step_max_count c o) as Hmax.
  apply IH; destruct o as [s|s|s|n]; lia.
Qed.

Lemma run_ops_max_count_fixed (ops : list (op (Id := Id))) c :
  (∀ o n, o ∈ ops → o ≠ Configure n) →
  max_count (run_ops ops c) = max_count c.
Proof.
  revert c. induction ops as [|o ops IH]; intros c Hno; [done|].
  simpl. rewrite IH.
  - rewrite step_max_count. destruct o as [s|s|s|n]; try done.
    destruct (Hno (Configure n) n); [left | done].
  - intros o' n Hin. apply Hno. by right.
Qed.

Lemma submit_when_full s c :
  (max_count c ≤ processing_count c)%nat →
  submit s c
  = (mkController (max_count c) (active c) (waiting c ++ [s]),
     S (length (waiting c))).
Proof.
  unfold submit, processing_count. intros Hfull. rewrite decide_False; [done | lia].
Qed.

(** C5, as the specified controller has it. From an empty start, through
    submissions, releases, cancellations and changes of the ceiling, the
    number of processing sessions is at most the configured ceiling as
    long as the ceiling is never lowered below the number of sessions
    active at that moment, in particular when it is never changed or
    only raised. In general it is at most the largest ceiling that was
    in force, and no operation makes it grow beyond the ceiling then in
    force: a lowered ceiling pre-empts nothing and only throttles later
    admissions. A submission that finds every slot occupied joins the
    tail of the wait queue and starts no processing. *)
Theorem admission_ceiling_bounds (ceiling : nat) (ops : list (op (Id := Id))) :
  let c := run_ops ops (init ceiling) in
  ((∀ ops1 n ops2, ops = ops1 ++ Configure n :: ops2 →
      processing_count (run_ops ops1 (init ceiling)) ≤ n)%nat →
   (processing_count c ≤ max_count c)%nat)
  ∧ ((∀ o n, o ∈ ops → o ≠ Configure n) →
     (processing_count c ≤ max_count c)%nat ∧ max_count c = ceiling)
  ∧ (processing_count c ≤ peak ceiling ops)%nat
  ∧ (∀ o, (processing_count (step c o)
           ≤ Nat.max (processing_count c) (max_count (step c o)))%nat)
  ∧ ∀ s, (max_count c ≤ processing_count c)%nat →
      submit s c
      = (mkController (max_count c) (active c) (waiting c ++ [s]),
         S (length (waiting c)))
      ∧ processing_count (run_ops (ops ++ [Submit s]) (init ceiling))
        = processing_count c
      ∧ waiting (run_ops (ops ++ [Submit s]) (init ceiling)) = waiting c ++ [s].
Proof.
  cbv zeta. split_and!.
  - apply run_ops_within.
  - intros Hno. split.
    + apply run_ops_within. intros ops1 n ops2 ->.
      destruct (Hno (Configure n) n); [|done].
      rewrite elem_of_app. right. left.
    + by rewrite run_ops_max_count_fixed.
  - apply (run_ops_peak ops (init ceiling) ceiling); unfold processing_count; simpl; lia.
  - intros o. apply step_bound.
  - intros s Hfull. rewrite run_ops_snoc. simpl.
    by rewrite (submit_when_full s _ Hfull).
Qed.
End admission.

(** Ceiling 2 with two sessions processing, then the ceiling is lowered
    to 1: nothing is pre-empted, so two sessions are processing under a
    ceiling of one. *)
Lemma admission_lowered_ceiling_exceeded :
  let c := Admission.run_ops
             [Admission.Submit 1%nat; Admission.Submit 2%nat; Admission.Configure 1]
             (Admission.init 2) in
  Admission.processing_count c = 2%nat
  ∧ Admission.max_count c = 1%nat
  ∧ ¬ (Admission.processing_count c ≤ Admission.max_count c)%nat.
Proof. vm_compute. split_and!; [done | done | lia]. Qed.

(** Ceiling 1 and two submissions: the second waits at position 1 until
    the first is released. *)
Example admission_two_sessions :
  let c1 := (Admission.submit 1%nat (Admission.init 1)).1 in
  let '(c2, ticket) := Admission.submit 2%nat c1 in
  Admission.active c2 = [1%nat] ∧ Admission.waiting c2 = [2%nat] ∧ ticket = 1%nat
  ∧ Admission.active (Admission.release 1%nat c2) = [2%nat]
  ∧ Admission.waiting (Admission.release 1%nat c2) = [].
Proof. vm_compute. done. Qed.

(** ** Instances on concrete inputs *)


Lemma deliver_concatenates_witness :
  let seg := mkSegment 0 (Some (lit "source")) None None (lit "pending") in
  let st := mkDetailState (Some (mkSession (lit "s1") (lit "processing") 0 None)) [seg] in
  let delta t := mkStreamData (lit "content") 0 (lit "polish") (lit t) [] in
  let note := mkStreamData (lit "history_compressed") 0 [] [] (lit "compressed") in
  segments st !! 0%nat = Some seg
  ∧ ∃ seg', segments (deliver react_hot_toast
                        [delta "ab"%string; note; delta "cd"%string] st) !! 0%nat
            = Some seg'
      ∧ join_item (polished_text seg') = lit "abcd".
Proof.
  cbv zeta. split; [reflexivity|].
  destruct (proj1 (proj2 (deliver_concatenates react_hot_toast
    (mkDetailState (Some (mkSession (lit "s1") (lit "processing") 0 None))
       [mkSegment 0 (Some (lit "source")) None None (lit "pending")]) 0
    (mkSegment 0 (Some (lit "source")) None None (lit "pending")) eq_refl))
    [mkStreamData (lit "content") 0 (lit "polish") (lit "ab") [];
     mkStreamData (lit "history_compressed") 0 [] [] (lit "compressed");
     mkStreamData (lit "content") 0 (lit "polish") (lit "cd") []])
    as (seg' & Hseg' & Hp & _).
  exists seg'. split; [exact Hseg' | exact Hp].
Defined.

Lemma handleStartOptimization_rejects_blank_witness :
  let c := mkWorkspaceState [32; 9; 12288; 10]%N (lit "paper_polish_enhance")
             [] None false false in
  forallb is_whitespace (text c) = true
  ∧ run env_rejecting (handleStartOptimization c) c
    = (c, [Out (ToastError msg_enter_text)]).
Proof.
  cbv zeta. split; [reflexivity|].
  exact (proj1 (proj2 (handleStartOptimization_rejects_blank
    (mkWorkspaceState [32; 9; 12288; 10]%N (lit "paper_polish_enhance")
       [] None false false)
    env_rejecting
    (mkWorkspaceState [32; 9; 12288; 10]%N (lit "paper_polish_enhance")
       [] None false false)
    eq_refl))).
Defined.

Lemma retry_handlers_need_failed_witness :
  let s := mkSession (lit "s1") (lit "stopped") 40 None in
  let st := mkWorkspaceState [] (lit "paper_polish") [s] None false false in
  sess_status s ≠ lit "failed"
  ∧ run env_rejecting (handleRetry s handleRetrySegment) st
    = (st, [Out StopPropagation]).
Proof.
  cbv zeta.
  assert (sess_status (mkSession (lit "s1") (lit "stopped") 40 None) ≠ lit "failed")
    as Hs by (vm_compute; discriminate).
  split; [exact Hs|].
  exact (proj1 (proj2 (proj2 (proj2 (retry_handlers_need_failed
    (mkSession (lit "s1") (lit "stopped") 40 None) env_rejecting
    (mkWorkspaceState [] (lit "paper_polish")
       [mkSession (lit "s1") (lit "stopped") 40 None] None false false)
    (or_intror Hs)))))).
Defined.


Lemma setSegments_updater_out_of_range_witness :
  let seg := mkSegment 0 (Some (lit "source")) None None (lit "pending") in
  let st := mkDetailState None [seg] in
  let data := mkStreamData (lit "content") (-1) (lit "polish") (lit "x") [] in
  (data_segment_index data < 0
   ∨ Z.of_nat (length (segments st)) ≤ data_segment_index data)
  ∧ segments (handleStreamUpdate data st).1 = segments st.
Proof.
  cbv zeta.
  assert (-1 < 0) as Hneg by lia.
  split; [left; exact Hneg|].
  exact (proj1 (proj2 (proj2 (proj2 (setSegments_updater_out_of_range
    (mkStreamData (lit "content") (-1) (lit "polish") (lit "x") [])
    (mkDetailState None
       [mkSegment 0 (Some (lit "source")) None None (lit "pending")])
    (or_introl Hneg)))))).
Defined.

(** * Further properties of the two pages *)

(** ** The original-text pane and repeated rendering *)

Lemma js_sort_sorted_id (l : list Segment) :
  StronglySorted index_le l → js_sort by_segment_index l = l.
Proof.
  intros Hl. apply stable_sorted_unique; [apply js_sort_sorted | done |].
  intros k. apply js_sort_stable.
Qed.

Lemma js_sort_idemp (l : list Segment) :
  js_sort by_segment_index (js_sort by_segment_index l) = js_sort by_segment_index l.
Proof. apply js_sort_sorted_id, js_sort_sorted. Qed.

Lemma final_piece_untouched (seg : Segment) :
  truthy (enhanced_text seg) = false → truthy (polished_text seg) = false →
  final_piece seg = original_text seg.
Proof. intros He Hp. unfold final_piece, js_or. by rewrite He, Hp. Qed.

(** X1. The original-text pane lists the original texts in the order in
    which the result pane lists the outputs: both calls reorder the
    array in the same way and join one paragraph per segment of that
    array. While no segment has a non-empty stage output the two panes
    show the same text. *)
Theorem getOriginalText_same_order (segs : list Segment) :
  (getOriginalText segs).2 = (getFinalText segs).2
  ∧ (getOriginalText segs).1
    = join_strings paragraph_sep
        ((λ seg, join_item (original_text seg)) <$> (getFinalText segs).2)
  ∧ (getFinalText segs).1
    = join_strings paragraph_sep (contribution <$> (getFinalText segs).2)
  ∧ ((∀ seg, seg ∈ segs →
        truthy (enhanced_text seg) = false ∧ truthy (polished_text seg) = false) →
     getFinalText segs = getOriginalText segs).
Proof.
  split_and!.
  - done.
  - unfold getOriginalText, getFinalText. simpl.
    by rewrite join_join_strings, <- list_fmap_compose.
  - apply getFinalText_contributions.
  - intros Hnone. unfold getFinalText, getOriginalText. f_equal. f_equal.
    apply list_fmap_ext. intros i seg Hi.
    assert (seg ∈ segs) as Hin.
    { rewrite <- (js_sort_perm by_segment_index segs).
      apply list_elem_of_lookup. by exists i. }
    destruct (Hnone seg Hin). by apply final_piece_untouched.
Qed.

(** X2. Rendering again changes nothing: on the array a first call has
    left, either text function returns the same text and leaves the
    array as it is, so the order of the two calls in a render and the
    number of renders do not matter. *)
Theorem render_again_same (segs : list Segment) :
  getFinalText (getFinalText segs).2 = getFinalText segs
  ∧ getOriginalText (getFinalText segs).2 = getOriginalText segs
  ∧ getFinalText (getOriginalText segs).2 = getFinalText segs
  ∧ length (getFinalText segs).2 = length segs.
Proof.
  unfold getFinalText, getOriginalText. simpl.
  rewrite js_sort_idemp. split_and!; try done. apply js_sort_length.
Qed.

(** ** The session copy under stream updates *)

Lemma with_status_same (s : Session) (v : jsstring) :
  sess_status s = v → with_status v s = s.
Proof. intros <-. by destruct s. Qed.

Lemma setSession_updater_spec (prev : option Session) :
  setSession_updater prev = with_status (lit "processing") <$> prev.
Proof.
  destruct prev as [s|]; [|done]. unfold setSession_updater.
  destruct (str_eqb (sess_status s) (lit "processing")) eqn:Hs; [|done].
  apply str_eqb_eq in Hs. cbn [negb fmap option_fmap option_map].
  by rewrite with_status_same.
Qed.

Lemma headerItems_processing (s : Session) :
  sess_status s = lit "processing" → headerItems s = [StopButton].
Proof. intros Hs. unfold headerItems. rewrite Hs. reflexivity. Qed.

(** X3. Whatever the segment index and stage of a content event, the
    handler leaves a loaded session in status processing with its other
    fields as they were, and an unloaded one unloaded. The header then
    shows the stop button alone, also for a session that was completed,
    failed or stopped before the event. *)
Theorem handleStreamUpdate_marks_session (data : StreamData) (st : DetailState) :
  session (handleStreamUpdate data st).1
  = with_status (lit "processing") <$> session st
  ∧ (∀ s', session (handleStreamUpdate data st).1 = Some s' →
       sess_status s' = lit "processing" ∧ headerItems s' = [StopButton])
  ∧ (∀ toast, data_type data = lit "content" →
       session (onmessage toast (Some data) st).1
       = with_status (lit "processing") <$> session st).
Proof.
  assert (session (handleStreamUpdate data st).1
          = with_status (lit "processing") <$> session st) as Hs.
  { unfold handleStreamUpdate.
    destruct (setSegments_updater data (segments st)). simpl.
    apply setSession_updater_spec. }
  split_and!; [done| |].
  - intros s' Hs'. rewrite Hs in Hs'.
    destruct (session st) as [s|]; simplify_eq/=.
    split; [done | by apply headerItems_processing].
  - intros toast Ht. unfold onmessage. by rewrite Ht.
Qed.

(** ** Stream updates: order of events, unknown stages, other messages *)

Lemma setSegments_updater_lookup_None (data : StreamData) (segs : list Segment)
    (j : nat) :
  segs !! j = None → (setSegments_updater data segs).1 !! j = None.
Proof.
  rewrite !lookup_ge_None. by rewrite setSegments_updater_length.
Qed.

(** X4. Content events that name different positions can be applied in
    either order: the resulting segment list is the same. *)
Theorem setSegments_updater_commute (d1 d2 : StreamData) (segs : list Segment) :
  data_segment_index d1 ≠ data_segment_index d2 →
  (setSegments_updater d2 (setSegments_updater d1 segs).1).1
  = (setSegments_updater d1 (setSegments_updater d2 segs).1).1
  ∧ stream_updates [d1; d2] segs = stream_updates [d2; d1] segs.
Proof.
  intros Hne.
  assert ((setSegments_updater d2 (setSegments_updater d1 segs).1).1
          = (setSegments_updater d1 (setSegments_updater d2 segs).1).1) as Heq;
    [|by split].
  apply list_eq. intros j.
  destruct (segs !! j) as [seg|] eqn:Hj.
  - rewrite (setSegments_updater_lookup d2 _ j _ (setSegments_updater_lookup d1 segs j seg Hj)).
    rewrite (setSegments_updater_lookup d1 _ j _ (setSegments_updater_lookup d2 segs j seg Hj)).
    repeat case_decide; first [done | lia].
  - rewrite (setSegments_updater_lookup_None d2);
      [|by apply setSegments_updater_lookup_None].
    rewrite (setSegments_updater_lookup_None d1);
      [done | by apply setSegments_updater_lookup_None].
Qed.

Lemma set_seg_status_same (seg : Segment) (v : jsstring) :
  seg_status seg = v → set_seg_status v seg = seg.
Proof. intros <-. by destruct seg. Qed.

(** X5. A content event whose stage is none of polish, emotion_polish
    and enhance adds no text anywhere: the segment at its position is
    only marked as processing. *)
Theorem setSegments_updater_unknown_stage (data : StreamData) (segs : list Segment)
    (i : nat) (seg : Segment) :
  segs !! i = Some seg → data_segment_index data = Z.of_nat i →
  data_stage data ∉ [lit "polish"; lit "emotion_polish"; lit "enhance"] →
  (setSegments_updater data segs).1
  = <[i := set_seg_status (lit "processing") seg]> segs.
Proof.
  intros Hi Hd Hstage.
  assert (to_polished data = false ∧ to_enhanced data = false) as [Hp He].
  { unfold to_polished, to_enhanced. rewrite orb_false_iff, !str_eqb_neq.
    split_and!; intros Heq; apply Hstage; rewrite Heq, !elem_of_cons; auto. }
  unfold setSegments_updater. rewrite Hd, array_get_of_nat, Hi, Nat2Z.id.
  cbn [fst]. f_equal. rewrite apply_delta_unfold, Hp, He. cbv zeta.
  destruct (str_eqb (seg_status seg) (lit "processing")) eqn:Hs; [|done].
  apply str_eqb_eq in Hs. cbn [negb]. by rewrite set_seg_status_same.
Qed.

Lemma setSegments_updater_unknown_stage_witness :
  let seg := mkSegment 0 (Some (lit "source")) (Some (lit "out")) None (lit "done") in
  let data := mkStreamData (lit "content") 0 (lit "compress") (lit "x") [] in
  (setSegments_updater data [seg]).1
  = [mkSegment 0 (Some (lit "source")) (Some (lit "out")) None (lit "processing")].
Proof.
  cbv zeta.
  refine (setSegments_updater_unknown_stage
    (mkStreamData (lit "content") 0 (lit "compress") (lit "x") [])
    [mkSegment 0 (Some (lit "source")) (Some (lit "out")) None (lit "done")] 0
    (mkSegment 0 (Some (lit "source")) (Some (lit "out")) None (lit "done"))
    eq_refl eq_refl _).
  vm_compute. intros Hin.
  repeat (apply elem_of_cons in Hin as [Heq|Hin]; [discriminate Heq|]).
  by apply elem_of_nil in Hin.
Defined.

Lemma setSegments_updater_commute_witness :
  let seg i := mkSegment i (Some (lit "source")) None None (lit "pending") in
  let data i := mkStreamData (lit "content") i (lit "polish") (lit "x") [] in
  stream_updates [data 0; data 1] [seg 0; seg 1]
  = stream_updates [data 1; data 0] [seg 0; seg 1].
Proof.
  cbv zeta.
  assert (0 ≠ 1) as Hne by lia.
  exact (proj2 (setSegments_updater_commute
    (mkStreamData (lit "content") 0 (lit "polish") (lit "x") [])
    (mkStreamData (lit "content") 1 (lit "polish") (lit "x") [])
    [mkSegment 0 (Some (lit "source")) None None (lit "pending");
     mkSegment 1 (Some (lit "source")) None None (lit "pending")] Hne)).
Defined.

(** X6. Only content messages change the page state: a message that
    cannot be parsed, a history_compressed one or one of any other type
    leaves session and segments as they are, and a message of a type
    the handler does not know does nothing at all. *)
Theorem onmessage_other_types (toast : ToastLibrary) (parsed : option StreamData)
    (st : DetailState) :
  (∀ data, parsed = Some data → data_type data ≠ lit "content") →
  (onmessage toast parsed st).1 = st
  ∧ (∀ data, parsed = Some data → data_type data ≠ lit "history_compressed" →
     onmessage toast parsed st = (st, [])).
Proof.
  intros Hother. destruct parsed as [data|]; [|done].
  specialize (Hother data eq_refl). apply str_eqb_neq in Hother.
  unfold onmessage. cbv zeta. rewrite Hother. split.
  - by destruct (str_eqb (data_type data) (lit "history_compressed")),
      (has_info toast).
  - intros ? [= <-] Hh. apply str_eqb_neq in Hh. by rewrite Hh.
Qed.

Lemma onmessage_other_types_witness :
  let st := mkDetailState None [] in
  let data := mkStreamData (lit "heartbeat") 0 [] [] [] in
  onmessage (mkToastLibrary false) (Some data) st = (st, []).
Proof.
  cbv zeta.
  refine (proj2 (onmessage_other_types (mkToastLibrary false)
    (Some (mkStreamData (lit "heartbeat") 0 [] [] [])) (mkDetailState None []) _)
    _ eq_refl _).
  - intros data [= <-]. vm_compute. discriminate.
  - vm_compute. discriminate.
Defined.

(** ** What stream updates leave of the two panes *)

Lemma sort_insert_same_source (x x' : Segment) (l l' : list Segment) :
  same_source x x' → Forall2 same_source l l' →
  Forall2 same_source (sort_insert by_segment_index x l)
    (sort_insert by_segment_index x' l').
Proof.
  intros Hx Hl. induction Hl as [|y y' l l' Hy Hl IH]; simpl.
  - constructor; [done | constructor].
  - change (by_segment_index x y) with (segment_index x - segment_index y).
    change (by_segment_index x' y') with (segment_index x' - segment_index y').
    destruct (Hx) as [Hxi _], (Hy) as [Hyi _]. rewrite <- Hxi, <- Hyi.
    case_decide.
    + constructor; [done|]. by constructor.
    + by constructor.
Qed.

Lemma js_sort_same_source (l l' : list Segment) :
  Forall2 same_source l l' →
  Forall2 same_source (js_sort by_segment_index l) (js_sort by_segment_index l').
Proof.
  induction 1; simpl; [constructor|]. by apply sort_insert_same_source.
Qed.

Lemma setSegments_updater_same_source (data : StreamData) (segs : list Segment) :
  Forall2 same_source segs (setSegments_updater data segs).1.
Proof.
  apply Forall2_same_length_lookup_2; [by rewrite setSegments_updater_length|].
  intros i seg seg' Hi Hi'.
  rewrite (setSegments_updater_lookup data segs i seg Hi) in Hi'.
  simplify_eq. case_decide; [|done].
  destruct (apply_delta_frame data seg) as [H1 H2]. by split.
Qed.

Lemma stream_updates_same_source (evs : list StreamData) (segs : list Segment) :
  Forall2 same_source segs (stream_updates evs segs).
Proof.
  revert segs. induction evs as [|data evs IH]; intros segs.
  - apply Forall2_same_length_lookup_2; [done|].
    intros i x y Hx Hy. by simplify_eq/=.
  - rewrite stream_updates_cons.
    pose proof (setSegments_updater_same_source data segs) as H1.
    pose proof (IH (setSegments_updater data segs).1) as H2.
    apply Forall2_same_length_lookup_2.
    { by rewrite (Forall2_length _ _ _ H1), (Forall2_length _ _ _ H2). }
    intros i x z Hx Hz.
    destruct (Forall2_lookup_l _ _ _ _ _ H1 Hx) as (y & Hy & [Hxy1 Hxy2]).
    destruct (Forall2_lookup_l _ _ _ _ _ H2 Hy) as (z' & Hz' & [Hyz1 Hyz2]).
    simplify_eq. split; congruence.
Qed.

(** X7. Stream updates never touch what the original-text pane shows,
    nor the order of the paragraphs: after any sequence of content
    events the original text is the same, and the rendered array
    carries the same segment indices in the same order. *)
Theorem stream_updates_keep_original_pane (evs : list StreamData)
    (segs : list Segment) :
  (getOriginalText (stream_updates evs segs)).1 = (getOriginalText segs).1
  ∧ segment_index <$> (getFinalText (stream_updates evs segs)).2
    = segment_index <$> (getFinalText segs).2
  ∧ length (stream_updates evs segs) = length segs.
Proof.
  pose proof (js_sort_same_source _ _ (stream_updates_same_source evs segs)) as Hs.
  split_and!.
  - unfold getOriginalText. simpl. f_equal. symmetry.
    apply list_eq_Forall2, Forall2_fmap.
    eapply Forall2_impl; [exact Hs|]. by intros x y [_ ?].
  - unfold getFinalText. simpl. symmetry.
    apply list_eq_Forall2, Forall2_fmap.
    eapply Forall2_impl; [exact Hs|]. by intros x y [? _].
  - apply stream_updates_length.
Qed.

Lemma sorted_from_offset (m : Z) (l : list Segment) :
  (∀ (i : nat) seg, l !! i = Some seg → segment_index seg = m + Z.of_nat i) →
  StronglySorted index_le l.
Proof.
  revert m. induction l as [|x l IH]; intros m Hl; [constructor|].
  constructor.
  - apply (IH (m + 1)). intros i seg Hi.
    rewrite (Hl (S i) seg Hi). lia.
  - apply Forall_forall. intros y [i Hi]%list_elem_of_lookup.
    unfold index_le. rewrite (Hl 0%nat x eq_refl), (Hl (S i) y Hi). lia.
Qed.

Lemma aligned_sorted (l : list Segment) : aligned l → StronglySorted index_le l.
Proof. intros Hal. apply (sorted_from_offset 0). intros i seg Hi. by rewrite (Hal i seg Hi). Qed.

Lemma contribution_first_nonempty (seg : Segment) :
  contribution seg
  = first_nonempty (join_item (enhanced_text seg)) (join_item (polished_text seg))
      (join_item (original_text seg)).
Proof.
  unfold contribution.
  by destruct (enhanced_text seg) as [[|??]|], (polished_text seg) as [[|??]|].
Qed.

Lemma stream_updates_aligned (evs : list StreamData) (segs : list Segment) :
  aligned segs → aligned (stream_updates evs segs).
Proof.
  revert segs. induction evs as [|data evs IH]; intros segs Hal; [done|].
  rewrite stream_updates_cons. by apply IH, setSegments_updater_aligned.
Qed.

(** X8. What the result pane shows during a stream. On a list laid out
    by index, after any sequence of content events the final text has
    one paragraph per segment, in list order: the segment's enhanced
    text followed by the enhance deltas sent for it if that is
    non-empty, otherwise its polished text followed by its polish and
    emotion_polish deltas if that is non-empty, otherwise its original
    text. *)
Theorem getFinalText_after_stream (evs : list StreamData) (segs : list Segment) :
  aligned segs →
  getFinalText (stream_updates evs segs)
  = (join_strings paragraph_sep
       (imap (λ i seg,
                first_nonempty
                  (join_item (enhanced_text seg) ++ deltas to_enhanced i evs)
                  (join_item (polished_text seg) ++ deltas to_polished i evs)
                  (join_item (original_text seg))) segs),
     stream_updates evs segs).
Proof.
  intros Hal.
  pose proof (js_sort_sorted_id _ (aligned_sorted _ (stream_updates_aligned evs segs Hal)))
    as Hsort.
  apply injective_projections; [|exact Hsort].
  rewrite getFinalText_contributions, Hsort. cbn [fst]. f_equal.
  apply list_eq. intros i. rewrite list_lookup_fmap, list_lookup_imap.
  destruct (segs !! i) as [seg|] eqn:Hi.
  - destruct (stream_updates_texts evs segs i seg Hi) as (seg' & Hseg' & Hp & He).
    destruct (Forall2_lookup_l _ _ _ _ _ (stream_updates_same_source evs segs) Hi)
      as (seg'' & Hseg'' & [_ Horig]).
    simplify_eq. rewrite Hseg'. simpl. f_equal.
    by rewrite contribution_first_nonempty, Hp, He, Horig.
  - assert (stream_updates evs segs !! i = None) as ->; [|done].
    apply lookup_ge_None. rewrite stream_updates_length. by apply lookup_ge_None.
Qed.

Lemma getFinalText_after_stream_witness :
  let seg i := mkSegment i (Some (lit "source")) None None (lit "pending") in
  let data i t := mkStreamData (lit "content") i (lit "polish") (lit t) [] in
  (getFinalText (stream_updates [data 1 "ab"%string; data 1 "cd"%string] [seg 0; seg 1])).1
  = lit "source" ++ paragraph_sep ++ lit "abcd".
Proof.
  cbv zeta.
  assert (aligned [mkSegment 0 (Some (lit "source")) None None (lit "pending");
                   mkSegment 1 (Some (lit "source")) None None (lit "pending")]) as Hal.
  { intros [|[|i]] seg Hi; vm_compute in Hi; by simplify_eq. }
  rewrite (getFinalText_after_stream _ _ Hal). reflexivity.
Defined.

(** ** Header, stop and reload *)

Lemma headerItems_cases (s : Session) :
  headerItems s
  = if str_eqb (sess_status s) (lit "completed") then [CompletedBadge; ExportButton]
    else if str_eqb (sess_status s) (lit "failed") then [FailedBadge]
    else if str_eqb (sess_status s) (lit "stopped") then [StoppedBadge]
    else if str_eqb (sess_status s) (lit "processing")
            || str_eqb (sess_status s) (lit "queued")
    then [StopButton] else [].
Proof.
  unfold headerItems.
  destruct (str_eqb (sess_status s) (lit "completed")) eqn:Hc;
    [apply str_eqb_eq in Hc; by rewrite Hc|].
  destruct (str_eqb (sess_status s) (lit "failed")) eqn:Hf;
    [apply str_eqb_eq in Hf; by rewrite Hf|].
  destruct (str_eqb (sess_status s) (lit "stopped")) eqn:Hs;
    [apply str_eqb_eq in Hs; by rewrite Hs|].
  by destruct (_ || _).
Qed.

(** X9. The header shows one group of items at most, the one of the
    session's status: the export button exactly for a completed
    session, never together with the stop button, and nothing at all
    for a status outside completed, failed, stopped, processing and
    queued. *)
Theorem headerItems_exclusive (s : Session) :
  (ExportButton ∈ headerItems s ↔ sess_status s = lit "completed")
  ∧ ¬ (ExportButton ∈ headerItems s ∧ StopButton ∈ headerItems s)
  ∧ (headerItems s = [] ↔
     sess_status s ∉ [lit "completed"; lit "failed"; lit "stopped";
                      lit "processing"; lit "queued"])
  ∧ (length (headerItems s) ≤ 2)%nat
  ∧ headerItems s
    ∈ [[CompletedBadge; ExportButton]; [FailedBadge]; [StoppedBadge];
       [StopButton]; []].
Proof.
  rewrite headerItems_cases, !elem_of_cons, elem_of_nil.
  rewrite <- !str_eqb_eq.
  destruct (str_eqb (sess_status s) (lit "completed")),
    (str_eqb (sess_status s) (lit "failed")),
    (str_eqb (sess_status s) (lit "stopped")),
    (str_eqb (sess_status s) (lit "processing")),
    (str_eqb (sess_status s) (lit "queued")); simpl;
    rewrite ?elem_of_cons, ?elem_of_nil;
    (split_and!; [intuition congruence | intuition congruence
                  | intuition congruence | lia | by auto 10]).
Qed.

(** X10. [handleStop] changes the page and asks for a reload only after
    the user has confirmed and the server has accepted the stop. A
    declined confirmation ends the handler with nothing sent; a refused
    stop leaves the state as it is and shows one error toast carrying
    the server's detail or, when that is absent or empty, the default
    text. *)
Theorem handleStop_guarded (sessionId : jsstring) (env : Env) (st : DetailState) :
  let res := run env (handleStop sessionId) st in
  (answer_confirm env msg_confirm_stop = false →
   res = (st, [Asked msg_confirm_stop false]))
  ∧ (∀ detail, answer_confirm env msg_confirm_stop = true →
       answer_request env (StopSession sessionId) = Rejected detail →
       res = (st, [Asked msg_confirm_stop true;
                   Sent (StopSession sessionId) (Rejected detail);
                   Out (ToastError (msg_stop_failed ++ or_else detail msg_unknown_error))]))
  ∧ (res.1 ≠ st ∨ GetSessionDetail sessionId ∈ requests res.2 →
     answer_confirm env msg_confirm_stop = true
     ∧ ∃ ack, answer_request env (StopSession sessionId) = Resolved ack).
Proof.
  cbv zeta. unfold handleStop. simpl.
  destruct (answer_confirm env msg_confirm_stop) eqn:Hok; simpl.
  - destruct (answer_request env (StopSession sessionId)) as [ack|detail] eqn:Hstop.
    + split_and!; [done | done |]. intros _. split; [done | by exists ack].
    + simpl. split_and!; [done | by intros ? _ [= <-] |].
      intros [Hst|Hin]; [done|]. simpl in Hin.
      apply elem_of_cons in Hin as [?|Hin]; [done | by apply elem_of_nil in Hin].
  - split_and!; [done | done |].
    intros [Hst|Hin]; [done | by apply elem_of_nil in Hin].
Qed.

(** X11. [loadSessionDetail] replaces the segment list only when the
    response body carries a session, and then by the body's segments,
    or by the empty list when the body has none. In every other case,
    a rejected request or an empty body, the segments stay and the user
    is told and sent back to the workspace. *)
Theorem loadSessionDetail_outcomes (sessionId : jsstring) (env : Env)
    (st : DetailState) :
  let res := run env (loadSessionDetail sessionId) st in
  let loaded :=
    ∃ data s, answer_request env (GetSessionDetail sessionId) = Resolved data
              ∧ r_session data = Some s in
  (∀ data s, answer_request env (GetSessionDetail sessionId) = Resolved data →
     r_session data = Some s →
     res.1 = mkDetailState (Some s) (default [] (r_segments data))
     ∧ res.2 = [Sent (GetSessionDetail sessionId) (Resolved data)])
  ∧ (¬ loaded →
     segments res.1 = segments st
     ∧ res.2 = [Sent (GetSessionDetail sessionId)
                  (answer_request env (GetSessionDetail sessionId));
                Out (ToastError msg_load_detail_failed);
                Out (Navigate (lit "/workspace"))])
  ∧ (Out (Navigate (lit "/workspace")) ∈ res.2 ↔ ¬ loaded).
Proof.
  cbv zeta. unfold loadSessionDetail. simpl.
  destruct (answer_request env (GetSessionDetail sessionId)) as [data|detail] eqn:Hget.
  - destruct (r_session data) as [s|] eqn:Hs; simpl.
    + split_and!.
      * intros ? ? [= <-] ?. by simplify_eq.
      * intros Hno. destruct Hno. by exists data, s.
      * split; [|intros Hno; destruct Hno; by exists data, s].
        intros Hin. apply elem_of_cons in Hin as [?|Hin]; [done|].
        by apply elem_of_nil in Hin.
    + split_and!.
      * intros ? ? [= <-] ?. congruence.
      * done.
      * split; [intros _ (d & s & [= <-] & ?); congruence|].
        intros _. rewrite !elem_of_cons. auto.
  - simpl. split_and!; [done | done |].
    split; [by intros _ (d & s & ? & _)|].
    intros _. rewrite !elem_of_cons. auto.
Qed.

(** ** The session list and submission *)

#[local] Arguments lit : simpl never.

(** The active session after a list reload that found [found] in flight. *)
Lemma run_loadSessions (env : Env) (st : WorkspaceState) :
  run env loadSessions st
  = match answer_request env ListSessions with
    | Resolved data =>
        (mkWorkspaceState (text st) (processingMode st) (r_sessions data)
           (match List.find is_in_flight (r_sessions data) with
            | Some p => Some (session_id p)
            | None => activeSession st
            end)
           (isSubmitting st) false,
         [Sent ListSessions (Resolved data)])
    | Rejected detail =>
        (mkWorkspaceState (text st) (processingMode st) (sessions st)
           (activeSession st) (isSubmitting st) false,
         [Sent ListSessions (Rejected detail);
          Out (ConsoleError msg_load_sessions_failed)])
    end.
Proof.
  unfold loadSessions. simpl.
  destruct (answer_request env ListSessions) as [data|detail]; simpl; [|done].
  by destruct (List.find is_in_flight (r_sessions data)).
Qed.

(** X12. [loadSessions] always ends with the loading flag off and never
    touches the text, the mode or the submitting flag. A rejected
    request leaves the list and the active session as they were. A
    resolved one replaces the list; it sets the active session to the
    first listed session that is processing or queued and, when there
    is none, keeps the active session: a reload never clears it. *)
Theorem loadSessions_outcomes (env : Env) (st : WorkspaceState) :
  let res := (run env loadSessions st).1 in
  isLoadingSessions res = false
  ∧ text res = text st ∧ processingMode res = processingMode st
  ∧ isSubmitting res = isSubmitting st
  ∧ requests (run env loadSessions st).2 = [ListSessions]
  ∧ (∀ detail, answer_request env ListSessions = Rejected detail →
       sessions res = sessions st ∧ activeSession res = activeSession st)
  ∧ (∀ data, answer_request env ListSessions = Resolved data →
       sessions res = r_sessions data
       ∧ (∀ p, List.find is_in_flight (r_sessions data) = Some p →
            activeSession res = Some (session_id p))
       ∧ (Forall (λ s, sess_status s ≠ lit "processing"
                       ∧ sess_status s ≠ lit "queued") (r_sessions data) →
          activeSession res = activeSession st)).
Proof.
  cbv zeta. rewrite run_loadSessions.
  destruct (answer_request env ListSessions) as [data|detail]; simpl.
  - split_and!; try done. intros ? [= <-]. split_and!; [done| |].
    + by intros p ->.
    + intros Hnone. destruct (List.find is_in_flight (r_sessions data)) as [p|] eqn:Hf;
        [|done].
      apply find_some in Hf as [Hin Hp].
      rewrite Forall_forall in Hnone. apply list_elem_of_In in Hin.
      destruct (Hnone p Hin) as [H1 H2].
      unfold is_in_flight in Hp. apply orb_true_iff in Hp as [Hp|Hp];
        apply str_eqb_eq in Hp; done.
  - split_and!; try done; by intros ? [= <-].
Qed.

#[local] Arguments loadSessions : simpl never.

(** X13. [handleStartOptimization] shows the enter-text toast exactly
    for a text that is empty or whitespace only, and sends the start
    request exactly for a text with visible content while no submission
    is under way; a click during a submission does nothing at all. The
    request carries the text as typed, untrimmed, and the chosen
    mode. *)
Theorem handleStartOptimization_gates (c : WorkspaceState) (env : Env)
    (st : WorkspaceState) :
  let tr := (run env (handleStartOptimization c) st).2 in
  (Out (ToastError msg_enter_text) ∈ tr ↔ forallb is_whitespace (text c) = true)
  ∧ (StartOptimization (text c) (processingMode c) ∈ requests tr
     ↔ forallb is_whitespace (text c) = false ∧ isSubmitting c = false)
  ∧ (forallb is_whitespace (text c) = false → isSubmitting c = true →
     run env (handleStartOptimization c) st = (st, []))
  ∧ (∀ document mode, StartOptimization document mode ∈ requests tr →
       document = text c ∧ mode = processingMode c).
Proof.
  cbv zeta. destruct (forallb is_whitespace (text c)) eqn:Hblank.
  { rewrite (handleStartOptimization_blank c Hblank). simpl.
    split_and!; try done.
    - split; [done | intros _; left].
    - split; [by intros ?%elem_of_nil | by intros [? _]].
    - by intros ?? ?%elem_of_nil. }
  unfold handleStartOptimization.
  destruct (trim (text c)) as [|u t] eqn:Htrim.
  { apply trim_nil_iff in Htrim. congruence. }
  cbn [truthy negb].
  destruct (isSubmitting c) eqn:Hsub.
  { simpl. split_and!; try done.
    - split; [by intros ?%elem_of_nil | done].
    - split; [by intros ?%elem_of_nil | by intros [_ ?]].
    - by intros ?? ?%elem_of_nil. }
  cbn -[loadSessions lit].
  destruct (answer_request env (StartOptimization (text c) (processingMode c)))
    as [data|detail]; cbn -[loadSessions lit].
  - rewrite run_loadSessions.
    destruct (answer_request env ListSessions) as [d|e]; cbn -[lit].
    + split_and!; try done.
      * split; [|done]. rewrite !elem_of_cons, elem_of_nil. intuition congruence.
      * split; [done | intros _; left].
      * intros ??. rewrite !elem_of_cons, elem_of_nil. intuition congruence.
    + split_and!; try done.
      * split; [|done]. rewrite !elem_of_cons, elem_of_nil. intuition congruence.
      * split; [done | intros _; left].
      * intros ??. rewrite !elem_of_cons, elem_of_nil. intuition congruence.
  - split_and!; try done.
    + split; [|done]. rewrite !elem_of_cons, elem_of_nil.
      intros [?|[H|[]]]; [done|]. injection H as H. discriminate H.
    + split; [done | intros _; left].
    + intros ??. rewrite !elem_of_cons, elem_of_nil. intuition congruence.
Qed.



(** X15. For a failed session [handleRetrySegment] asks first: a
    declined confirmation sends nothing and changes nothing. A refused
    retry leaves the state as it is and shows the server's detail or,
    when that is absent or empty, the default text. An accepted retry
    makes the session the active one and reloads the list, after which
    the active session is the first listed session in flight, or still
    the retried one when the reload fails or lists none. *)
Theorem handleRetrySegment_outcomes (s : Session) (env : Env) (st : WorkspaceState) :
  sess_status s = lit "failed" →
  let res := (run env (handleRetrySegment s) st).1 in
  let tr := (run env (handleRetrySegment s) st).2 in
  (answer_confirm env msg_confirm_retry = false →
   res = st ∧ tr = [Asked msg_confirm_retry false])
  ∧ (answer_confirm env msg_confirm_retry = true →
     (∀ detail, answer_request env (RetryFailedSegments (session_id s))
                = Rejected detail →
        res = st
        ∧ tr = [Asked msg_confirm_retry true;
                Sent (RetryFailedSegments (session_id s)) (Rejected detail);
                Out (ConsoleError msg_retry_error);
                Out (ToastError (or_else detail msg_retry_failed))])
     ∧ (∀ data, answer_request env (RetryFailedSegments (session_id s))
                = Resolved data →
        requests tr = [RetryFailedSegments (session_id s); ListSessions]
        ∧ Out (ToastSuccess (or_else (r_message data) msg_retry_resumed)) ∈ tr
        ∧ text res = text st ∧ isSubmitting res = isSubmitting st
        ∧ (∀ e, answer_request env ListSessions = Rejected e →
             sessions res = sessions st ∧ activeSession res = Some (session_id s))
        ∧ (∀ d, answer_request env ListSessions = Resolved d →
             sessions res = r_sessions d
             ∧ activeSession res
               = Some (match List.find is_in_flight (r_sessions d) with
                       | Some p => session_id p
                       | None => session_id s
                       end)))).
Proof.
  intros Hs. cbv zeta. unfold handleRetrySegment. rewrite Hs.
  change (str_eqb (lit "failed") (lit "failed")) with true. cbn -[loadSessions lit].
  destruct (answer_confirm env msg_confirm_retry); cbn -[loadSessions lit];
    [|by split_and!].
  split; [done|]. intros _.
  destruct (answer_request env (RetryFailedSegments (session_id s)))
    as [data|detail]; cbn -[loadSessions lit].
  - split; [done|]. intros ? [= <-]. rewrite run_loadSessions.
    destruct (answer_request env ListSessions) as [d|e]; cbn -[lit].
    + split_and!;
        first [done | by (rewrite !elem_of_cons; auto)
               | (intros ? [= <-]; split; [done|]; by destruct (List.find _ _))].
    + split_and!;
        first [done | by (rewrite !elem_of_cons; auto) | by intros ? [= <-]].
  - split; [|done]. by intros ? [= <-].
Qed.

Lemma handleRetrySegment_outcomes_witness :
  let s := mkSession (lit "s1") (lit "failed") 40 None in
  let st := mkWorkspaceState [] (lit "paper_polish") [s] None false false in
  activeSession (run env_rejecting (handleRetrySegment s) st).1 = None.
Proof.
  cbv zeta.
  pose proof (handleRetrySegment_outcomes
    (mkSession (lit "s1") (lit "failed") 40 None) env_rejecting
    (mkWorkspaceState [] (lit "paper_polish")
       [mkSession (lit "s1") (lit "failed") 40 None] None false false)
    eq_refl) as (_ & Hyes).
  destruct (Hyes eq_refl) as [Hrej _].
  destruct (Hrej None eq_refl) as [-> _]. reflexivity.
Defined.

(** ** The start button and the progress card *)

(** X16. The start button is enabled exactly when a click sends the
    start request and no session is active. The handler itself does not
    look at the active session: only the disabled button keeps a second
    document from being submitted while one is in flight. *)
Theorem startDisabled_matches_handler (c : WorkspaceState) (env : Env)
    (st : WorkspaceState) :
  (startDisabled c = false
   ↔ StartOptimization (text c) (processingMode c)
       ∈ requests (run env (handleStartOptimization c) st).2
     ∧ truthy (activeSession c) = false)
  ∧ (startDisabled c = true
     ↔ forallb is_whitespace (text c) = true
       ∨ truthy (activeSession c) = true ∨ isSubmitting c = true).
Proof.
  pose proof (handleStartOptimization_gates c env st) as (_ & Hsent & _).
  cbv zeta in Hsent. rewrite Hsent. unfold startDisabled.
  destruct (trim (text c)) as [|u t] eqn:Htrim.
  - apply trim_nil_iff in Htrim. rewrite Htrim. simpl. split; [|split; auto].
    split; [done | by intros [[? _] _]].
  - assert (forallb is_whitespace (text c) = false) as ->.
    { destruct (forallb is_whitespace (text c)) eqn:Hb; [|done].
      apply trim_nil_iff in Hb. congruence. }
    simpl. destruct (truthy (activeSession c)), (isSubmitting c); simpl;
      intuition congruence.
Qed.

Lemma find_some_session_id (id : nullable) (l : list Session) (q : Session) :
  List.find (λ s, bool_decide (Some (session_id s) = id)) l = Some q →
  q ∈ l ∧ Some (session_id q) = id.
Proof.
  intros [Hin Hq]%find_some. split; [by apply list_elem_of_In|].
  by apply bool_decide_eq_true in Hq.
Qed.

Lemma find_by_id_exists (id : jsstring) (l : list Session) (p : Session) :
  p ∈ l → session_id p = id →
  ∃ q, List.find (λ s, bool_decide (Some (session_id s) = Some id)) l = Some q.
Proof.
  intros Hin Hid.
  destruct (List.find _ l) as [q|] eqn:Hf; [by exists q|].
  apply list_elem_of_In in Hin.
  pose proof (find_none _ _ Hf p Hin) as Hp. simpl in Hp.
  apply bool_decide_eq_false in Hp. congruence.
Qed.

(** X17. After a reload of the list that finds a session in flight, the
    progress card shows a listed session with the id of the first such
    session, provided that id is not empty; with pairwise different ids
    it is that session itself. *)
Theorem progressCard_after_reload (env : Env) (st : WorkspaceState)
    (data : ResponseData) (p : Session) :
  answer_request env ListSessions = Resolved data →
  List.find is_in_flight (r_sessions data) = Some p →
  session_id p ≠ [] →
  ∃ q, progressCard (run env loadSessions st).1 = Some q
       ∧ q ∈ r_sessions data
       ∧ session_id q = session_id p
       ∧ (NoDup (session_id <$> r_sessions data) → q = p).
Proof.
  intros Hlist Hfind Hid. rewrite run_loadSessions, Hlist, Hfind. cbn [fst].
  unfold progressCard, currentActiveSessionData. cbn [activeSession sessions].
  assert (truthy (Some (session_id p)) = true) as ->.
  { by destruct (session_id p). }
  pose proof Hfind as [Hin _]%find_some. apply list_elem_of_In in Hin.
  destruct (find_by_id_exists (session_id p) (r_sessions data) p Hin eq_refl)
    as [q Hq].
  exists q. split; [done|].
  apply find_some_session_id in Hq as [Hqin Hqid]. injection Hqid as Hqid.
  split_and!; [done | done |].
  intros Hnd.
  apply list_elem_of_lookup in Hin as [i Hi], Hqin as [j Hj].
  assert (i = j) as ->; [|congruence].
  apply (NoDup_lookup _ i j (session_id p) Hnd).
  - by rewrite list_lookup_fmap, Hi.
  - rewrite list_lookup_fmap, Hj. simpl. by rewrite Hqid.
Qed.

Lemma progressCard_after_reload_witness :
  let p := mkSession (lit "s2") (lit "queued") 0 None in
  let done := mkSession (lit "s1") (lit "completed") 100 None in
  let env := mkEnv (λ _, true)
               (λ _, Resolved (mkResponseData None None [done; p] None None)) in
  let st := mkWorkspaceState [] (lit "paper_polish") [] None false false in
  ∃ q, progressCard (run env loadSessions st).1 = Some q
       ∧ session_id q = lit "s2".
Proof.
  cbv zeta.
  destruct (progressCard_after_reload
    (mkEnv (λ _, true)
       (λ _, Resolved (mkResponseData None None
          [mkSession (lit "s1") (lit "completed") 100 None;
           mkSession (lit "s2") (lit "queued") 0 None] None None)))
    (mkWorkspaceState [] (lit "paper_polish") [] None false false)
    (mkResponseData None None
       [mkSession (lit "s1") (lit "completed") 100 None;
        mkSession (lit "s2") (lit "queued") 0 None] None None)
    (mkSession (lit "s2") (lit "queued") 0 None)
    eq_refl eq_refl ltac:(vm_compute; discriminate))
    as (q & Hq & _ & Hid & _).
  exists q. split; [exact Hq | exact Hid].
Defined.

(** ** Progress polling *)

Lemma perform_lift {S : Type} (w : World) (p : prog S) (st : S) :
  (perform w (lift p) st).1 = (run (env_of w) p st).1
  ∧ calls (perform w (lift p) st).2 = Api <$> requests (run (env_of w) p st).2.
Proof.
  revert st. induction p as [|o k IH|f k IH|msg k IH|r k IH|child IHc k IHk];
    intros st; simpl.
  - done.
  - destruct (IH st) as [H1 H2].
    destruct (perform w (lift k) st), (run (env_of w) k st). by simpl in *.
  - apply IH.
  - destruct (IH (world_confirm w msg) st) as [H1 H2].
    destruct (perform w (lift (k _)) st), (run (env_of w) (k _) st). by simpl in *.
  - destruct (IH (to_response (world_call w (Api r))) st) as [H1 H2].
    destruct (perform w (lift (k _)) st), (run (env_of w) (k _) st).
    simpl in *. split; [done | by f_equal].
  - destruct (IHc st) as [H1 H2].
    destruct (perform w (lift child) st) as [s1 t1],
      (run (env_of w) child st) as [s1' t1'].
    simpl in *. subst s1'.
    destruct (IHk s1) as [H3 H4].
    destruct (perform w (lift k) s1) as [s2 t2], (run (env_of w) k s1) as [s2' t2'].
    simpl in *. split; [done|].
    unfold calls, requests in *. by rewrite !omap_app, fmap_app, H2, H4.
Qed.

Lemma setSessions_updater_mapped (sessionId : jsstring) (snapshot : ReplyData)
    (prev : list Session) :
  setSessions_updater sessionId snapshot prev = prev
  ∨ setSessions_updater sessionId snapshot prev
    = (λ s, if str_eqb (session_id s) sessionId then merge_progress s snapshot else s)
        <$> prev.
Proof.
  unfold setSessions_updater. destruct (List.find _ prev); [|by right].
  destruct (_ && _); [by left | by right].
Qed.

(** X18. The list update of a progress poll keeps the length of the
    session list and every session with another id; a session with the
    polled id is either kept or overlaid with the snapshot. When no
    session has the polled id the list is unchanged, and when the first
    session with that id already shows the snapshot's progress and
    status the list is returned as it is, whatever else the snapshot
    carries. *)
Theorem setSessions_updater_frame (sessionId : jsstring) (snapshot : ReplyData)
    (prev : list Session) :
  let next := setSessions_updater sessionId snapshot prev in
  length next = length prev
  ∧ (∀ i s, prev !! i = Some s → session_id s ≠ sessionId → next !! i = Some s)
  ∧ (∀ i s, prev !! i = Some s → session_id s = sessionId →
       next !! i = Some s ∨ next !! i = Some (merge_progress s snapshot))
  ∧ (Forall (λ s, session_id s ≠ sessionId) prev → next = prev)
  ∧ (∀ t, List.find (λ s, str_eqb (session_id s) sessionId) prev = Some t →
       p_progress snapshot = Some (progress t) →
       p_status snapshot = Some (sess_status t) → next = prev).
Proof.
  cbv zeta. split_and!.
  - destruct (setSessions_updater_mapped sessionId snapshot prev) as [->| ->];
      [done | by rewrite length_fmap].
  - intros i s Hi Hne.
    destruct (setSessions_updater_mapped sessionId snapshot prev) as [->| ->];
      [done|].
    rewrite list_lookup_fmap, Hi. simpl.
    by rewrite (proj2 (str_eqb_neq _ _) Hne).
  - intros i s Hi Heq.
    destruct (setSessions_updater_mapped sessionId snapshot prev) as [->| ->];
      [by left|].
    right. rewrite list_lookup_fmap, Hi. simpl.
    by rewrite (proj2 (str_eqb_eq _ _) Heq).
  - intros Hnone.
    destruct (setSessions_updater_mapped sessionId snapshot prev) as [->| ->];
      [done|].
    apply list_eq. intros i. rewrite list_lookup_fmap.
    destruct (prev !! i) as [s|] eqn:Hi; [|done]. simpl.
    rewrite Forall_forall in Hnone.
    assert (s ∈ prev) as Hin by (apply list_elem_of_lookup; eauto).
    by rewrite (proj2 (str_eqb_neq _ _) (Hnone s Hin)).
  - intros t Hfind Hp Hs. unfold setSessions_updater. rewrite Hfind, Hp, Hs.
    by rewrite !bool_decide_eq_true_2.
Qed.

Lemma perform_loadSessions (w : World) (st : WorkspaceState) :
  (perform w (lift loadSessions) st).1 = (run (env_of w) loadSessions st).1
  ∧ calls (perform w (lift loadSessions) st).2 = [Api ListSessions].
Proof.
  destruct (perform_lift w loadSessions st) as [H1 H2]. split; [done|].
  rewrite H2, run_loadSessions. by destruct (answer_request (env_of w) ListSessions).
Qed.

(** X19. A progress poll that is refused changes nothing. A snapshot
    whose status is neither completed nor failed, so also one that says
    stopped, only updates the list: the active session stays and the
    list is not reloaded. A completed or failed snapshot clears the
    active session and reloads the list, after which the active session
    is the first listed session in flight, or none. *)
Theorem updateSessionProgress_outcomes (sessionId : jsstring) (w : World)
    (st : WorkspaceState) :
  let res := (perform w (updateSessionProgress sessionId) st).1 in
  let tr := (perform w (updateSessionProgress sessionId) st).2 in
  (∀ detail, world_call w (GetSessionProgress sessionId) = Refused detail →
     res = st ∧ calls tr = [GetSessionProgress sessionId])
  ∧ (∀ snapshot, world_call w (GetSessionProgress sessionId) = Replied snapshot →
       p_status snapshot ≠ Some (lit "completed") →
       p_status snapshot ≠ Some (lit "failed") →
       res = setSessions (setSessions_updater sessionId snapshot (sessions st)) st
       ∧ activeSession res = activeSession st
       ∧ tr = [Called (GetSessionProgress sessionId) (Replied snapshot)])
  ∧ (∀ snapshot, world_call w (GetSessionProgress sessionId) = Replied snapshot →
       p_status snapshot = Some (lit "completed")
       ∨ p_status snapshot = Some (lit "failed") →
       calls tr = [GetSessionProgress sessionId; Api ListSessions]
       ∧ (∀ e, world_call w (Api ListSessions) = Refused e →
            activeSession res = None
            ∧ sessions res = setSessions_updater sessionId snapshot (sessions st))
       ∧ (∀ d, world_call w (Api ListSessions) = Replied d →
            sessions res = r_sessions (body d)
            ∧ activeSession res
              = session_id <$> List.find is_in_flight (r_sessions (body d)))).
Proof.
  cbv zeta. unfold updateSessionProgress. cbn -[loadSessions lit lift].
  destruct (world_call w (GetSessionProgress sessionId)) as [snapshot|detail];
    cbn -[loadSessions lit lift].
  - split; [done|].
    destruct (bool_decide (p_status snapshot = Some (lit "completed"))) eqn:Hc;
      [apply bool_decide_eq_true in Hc | apply bool_decide_eq_false in Hc].
    + cbn -[loadSessions lit lift].
      set (st1 := setActiveSession None _).
      destruct (perform_loadSessions w st1) as [H1 H2].
      rewrite run_loadSessions in H1.
      destruct (perform w (lift loadSessions) st1) as [s2 t2].
      cbn -[lit] in *. split; [by intros ? [= <-] ?|].
      intros ? [= <-] _. split_and!.
      * unfold calls in *. simpl. rewrite omap_app, H2. done.
      * intros e He. rewrite He in H1. simpl in H1. by subst s2.
      * intros d Hd. rewrite Hd in H1. simpl in H1. subst s2. simpl.
        split; [done|]. by destruct (List.find _ _).
    + destruct (bool_decide (p_status snapshot = Some (lit "failed"))) eqn:Hf;
        [apply bool_decide_eq_true in Hf | apply bool_decide_eq_false in Hf].
      * cbn -[loadSessions lit lift].
        set (st1 := setActiveSession None _).
        destruct (perform_loadSessions w st1) as [H1 H2].
        rewrite run_loadSessions in H1.
        destruct (perform w (lift loadSessions) st1) as [s2 t2].
        cbn -[lit] in *. split; [by intros ? [= <-] ?|].
        intros ? [= <-] _. split_and!.
        -- unfold calls in *. simpl. rewrite omap_app, H2. done.
        -- intros e He. rewrite He in H1. simpl in H1. by subst s2.
        -- intros d Hd. rewrite Hd in H1. simpl in H1. subst s2. simpl.
           split; [done|]. by destruct (List.find _ _).
      * cbn -[lit]. split.
        -- by intros ? [= <-] _ _.
        -- intros ? [= <-] [?|?]; done.
  - split; [by intros ? [= <-]|]. split; by intros ? [=].
Qed.

(** ** Deleting a session *)

(** X20. [handleDeleteSession] asks first: a declined confirmation
    sends nothing and changes nothing, and a refused deletion leaves the
    state as it is, without a reload, and shows the server's detail or
    the default text. The handler never removes the session from the
    list itself: after an accepted deletion the list is whatever the
    reload returns, and it is the old list, deleted session included,
    when the reload fails. The active session is cleared only if it was
    the deleted one when the handler was created. *)
Theorem handleDeleteSession_outcomes (c : WorkspaceState) (s : Session) (w : World)
    (st : WorkspaceState) :
  let res := (perform w (handleDeleteSession c s) st).1 in
  let tr := (perform w (handleDeleteSession c s) st).2 in
  let cleared :=
    if bool_decide (activeSession c = Some (session_id s))
    then None else activeSession st in
  (world_confirm w msg_confirm_delete = false →
   res = st ∧ tr = [Answered msg_confirm_delete false])
  ∧ (world_confirm w msg_confirm_delete = true →
     (∀ detail, world_call w (DeleteSession (session_id s)) = Refused detail →
        res = st
        ∧ tr = [Answered msg_confirm_delete true;
                Called (DeleteSession (session_id s)) (Refused detail);
                Did (Plain (ConsoleError msg_delete_error));
                Did (Plain (ToastError (or_else detail msg_delete_failed)))])
     ∧ (∀ ack, world_call w (DeleteSession (session_id s)) = Replied ack →
        calls tr = [DeleteSession (session_id s); Api ListSessions]
        ∧ Did (Plain (ToastSuccess msg_deleted)) ∈ tr
        ∧ (∀ e, world_call w (Api ListSessions) = Refused e →
             sessions res = sessions st ∧ activeSession res = cleared)
        ∧ (∀ d, world_call w (Api ListSessions) = Replied d →
             sessions res = r_sessions (body d)
             ∧ activeSession res
               = match List.find is_in_flight (r_sessions (body d)) with
                 | Some p => Some (session_id p)
                 | None => cleared
                 end))).
Proof.
  cbv zeta. unfold handleDeleteSession. cbn -[loadSessions lit lift].
  destruct (world_confirm w msg_confirm_delete); cbn -[loadSessions lit lift];
    [|by split].
  split; [done|]. intros _.
  destruct (world_call w (DeleteSession (session_id s))) as [ack|detail];
    cbn -[loadSessions lit lift].
  - split; [done|]. intros ? [= <-].
    destruct (bool_decide (activeSession c = Some (session_id s)));
      cbn -[loadSessions lit lift].
    + set (st1 := setActiveSession None st).
      destruct (perform_loadSessions w st1) as [H1 H2].
      rewrite run_loadSessions in H1.
      destruct (perform w (lift loadSessions) st1) as [s2 t2].
      cbn -[lit] in *. split_and!.
      * unfold calls in *. simpl. by rewrite H2.
      * rewrite !elem_of_cons. auto.
      * intros e He. rewrite He in H1. simpl in H1. by subst s2.
      * intros d Hd. rewrite Hd in H1. simpl in H1. subst s2. simpl.
        split; [done|]. by destruct (List.find _ _).
    + destruct (perform_loadSessions w st) as [H1 H2].
      rewrite run_loadSessions in H1.
      destruct (perform w (lift loadSessions) st) as [s2 t2].
      cbn -[lit] in *. split_and!.
      * unfold calls in *. simpl. by rewrite H2.
      * rewrite !elem_of_cons. auto.
      * intros e He. rewrite He in H1. simpl in H1. by subst s2.
      * intros d Hd. rewrite Hd in H1. simpl in H1. subst s2. simpl.
        split; [done|]. by destruct (List.find _ _).
  - split; [|done]. by intros ? [= <-].
Qed.

(** ** The access key *)

(** X22. A protected route renders its page exactly when a non-empty
    access key is stored. Accepting the notice with a key that has
    visible content opens the protected routes, logging out closes them
    again whatever was stored, and it removes the access key only. *)
Theorem access_key_round_trip (cardKey : jsstring) (localStorage : Storage) :
  (ProtectedRoute localStorage = Children
   ↔ ∃ k, localStorage !! lit "cardKey" = Some k ∧ k ≠ [])
  ∧ (ProtectedRoute localStorage ≠ Children →
     ProtectedRoute localStorage = RedirectTo (lit "/"))
  ∧ (forallb is_whitespace cardKey = false →
     ProtectedRoute (handleAccept cardKey localStorage).1 = Children)
  ∧ ProtectedRoute (handleLogout localStorage).1 = RedirectTo (lit "/")
  ∧ ProtectedRoute (handleLogout (handleAccept cardKey localStorage).1).1
    = RedirectTo (lit "/")
  ∧ (∀ key, key ≠ lit "cardKey" →
       (handleLogout localStorage).1 !! key = localStorage !! key).
Proof.
  unfold ProtectedRoute, handleAccept, handleLogout. cbn [fst]. split_and!.
  - destruct (localStorage !! lit "cardKey") as [[|u k]|]; cbn [truthy negb].
    + split; [done | by intros (k & [= <-] & ?)].
    + split; [intros _; by eexists | done].
    + split; [done | by intros (k & ? & _)].
  - by destruct (localStorage !! lit "cardKey") as [[|u k]|].
  - intros Hkey. rewrite lookup_insert_eq.
    destruct cardKey; [done | done].
  - by rewrite lookup_delete_eq.
  - by rewrite lookup_delete_eq.
  - intros key Hne. by rewrite lookup_delete_ne.
Qed.

(** ** A stopped session and the start button *)

(** X23. A session that was stopped keeps the start button disabled.
    While a session is active, a progress poll that reports stopped
    leaves it active, and so does a later reload of the list that is
    rejected or lists no session in flight: the button stays disabled
    through both. *)
Theorem stopped_keeps_start_disabled (sessionId : jsstring) (w : World) (env : Env)
    (st : WorkspaceState) (snapshot : ReplyData) :
  truthy (activeSession st) = true →
  world_call w (GetSessionProgress sessionId) = Replied snapshot →
  p_status snapshot = Some (lit "stopped") →
  let polled := (perform w (updateSessionProgress sessionId) st).1 in
  activeSession polled = activeSession st
  ∧ startDisabled polled = true
  ∧ ((∀ d, answer_request env ListSessions = Resolved d →
        Forall (λ s, sess_status s ≠ lit "processing"
                     ∧ sess_status s ≠ lit "queued") (r_sessions d)) →
     activeSession (run env loadSessions polled).1 = activeSession st
     ∧ startDisabled (run env loadSessions polled).1 = true).
Proof.
  intros Hactive Hpoll Hstopped. cbv zeta.
  destruct (updateSessionProgress_outcomes sessionId w st) as (_ & Hother & _).
  cbv zeta in Hother.
  destruct (Hother snapshot Hpoll) as (_ & Hact & _).
  { rewrite Hstopped. by intros [= H]. }
  { rewrite Hstopped. by intros [= H]. }
  assert (∀ s, activeSession s = activeSession st → startDisabled s = true) as Hdis.
  { intros s Hs. unfold startDisabled. rewrite Hs, Hactive.
    by destruct (negb _). }
  split_and!; [done | by apply Hdis |].
  intros Hnone.
  destruct (loadSessions_outcomes env (perform w (updateSessionProgress sessionId) st).1)
    as (_ & _ & _ & _ & _ & Hrej & Hres).
  cbv zeta in Hrej, Hres.
  assert (activeSession (run env loadSessions
            (perform w (updateSessionProgress sessionId) st).1).1
          = activeSession st) as Hkept.
  { destruct (answer_request env ListSessions) as [d|e] eqn:Hlist.
    - destruct (Hres d eq_refl) as (_ & _ & Hkeep).
      rewrite Hkeep; [done | by apply Hnone].
    - destruct (Hrej e eq_refl) as [_ Hkeep]. by rewrite Hkeep. }
  split; [done | by apply Hdis].
Qed.

Lemma stopped_keeps_start_disabled_witness :
  let st := mkWorkspaceState (lit "next document") (lit "paper_polish")
              [mkSession (lit "s1") (lit "processing") 40 None]
              (Some (lit "s1")) false false in
  let snapshot := mkReplyData (mkResponseData None None [] None None)
                    (Some (lit "stopped")) (Some 40) None None None in
  let w := mkWorld (λ _, true) (λ _, Replied snapshot) in
  startDisabled (perform w (updateSessionProgress (lit "s1")) st).1 = true.
Proof.
  cbv zeta.
  exact (proj1 (proj2 (stopped_keeps_start_disabled (lit "s1")
    (mkWorld (λ _, true)
       (λ _, Replied (mkReplyData (mkResponseData None None [] None None)
                        (Some (lit "stopped")) (Some 40) None None None)))
    env_rejecting
    (mkWorkspaceState (lit "next document") (lit "paper_polish")
       [mkSession (lit "s1") (lit "processing") 40 None]
       (Some (lit "s1")) false false)
    (mkReplyData (mkResponseData None None [] None None)
       (Some (lit "stopped")) (Some 40) None None None)
    eq_refl eq_refl eq_refl))).
Defined.
